(** * Wavelink: node management and listener registration

    A shallow embedding of [wavelink/meta.py] (the [WavelinkMixin] listener
    marker and the per-class listener table) and of [wavelink/node.py] (the
    [Node] REST queries, availability / penalty, event dispatch and
    teardown), followed by the properties of these functions.

    Conventions of the embedding:
    - a Python call that may raise returns [result A] = [exn + A]; where the
      mutated object must stay observable after a raise, the function returns
      the object state together with the outcome;
    - decoded JSON is the type [json]; [truthy] is Python's truth test;
    - HTTP traffic and [asyncio.sleep] are recorded in a list of [io_event]s;
      the server is an oracle giving the response to the k-th request;
    - calls to [logging] have no influence on control flow or results and are
      left out. *)

From Stdlib Require Import ZArith List String Floats Lia Bool.
From stdpp Require Import base gmap strings list.

Open Scope string_scope.
Open Scope Z_scope.

Set Warnings "-register-all,-inexact-float".

(** ** Python values shared by both modules *)

Module Py.

(** Decoded JSON, as [json.loads] (used by aiohttp's [resp.json()]) yields
    it: [None], [bool], [int], [float], [str], [list], [dict]. A [dict] is
    kept as an association list in insertion order; lookup takes the first
    binding of a key. *)
Inductive json : Type :=
| JNull
| JBool (b : bool)
| JInt (z : Z)
| JFloat (f : float)
| JStr (s : string)
| JList (l : list json)
| JDict (d : list (string * json)).

(** One piece of an f-string: literal text or a formatted value. *)
Inductive fragment : Type :=
| Lit (s : string)
| Fmt (v : json).

(** The exceptions (instances of [Exception]) that occur in the two files. *)
Inductive exn : Type :=
| TypeError (msg : string)
| AttributeError (attr : string)
| KeyError (key : string)
| NameError (name : string)
| UnboundLocalError (name : string)
| BuildTrackError (msg : list fragment)
| WavelinkException (msg : string)
| OtherError (tag : string).

Definition result (A : Type) : Type := exn + A.

#[global] Instance result_ret : MRet result := fun A a => inr a.
#[global] Instance result_bind : MBind result :=
  fun A B f m => match m with inl e => inl e | inr a => f a end.

Definition raise {A : Type} (e : exn) : result A := inl e.

(** [bool(v)] *)
Definition truthy (v : json) : bool :=
  match v with
  | JNull => false
  | JBool b => b
  | JInt z => negb (z =? 0)
  | JFloat f => negb (PrimFloat.eqb f 0%float)
  | JStr s => negb (String.eqb s "")
  | JList l => match l with [] => false | _ :: _ => true end
  | JDict d => match d with [] => false | _ :: _ => true end
  end.

Fixpoint assoc (k : string) (d : list (string * json)) : option json :=
  match d with
  | [] => None
  | (k', v) :: d' => if String.eqb k k' then Some v else assoc k d'
  end.

(** [v.get(k, None)]: only a [dict] has the method. *)
Definition dict_get (v : json) (k : string) : result json :=
  match v with
  | JDict d => mret (default JNull (assoc k d))
  | _ => raise (AttributeError "get")
  end.

(** [v[k]] for a [str] key [k]. *)
Definition subscript (v : json) (k : string) : result json :=
  match v with
  | JDict d => match assoc k d with
               | Some x => mret x
               | None => raise (KeyError k)
               end
  | JList _ => raise (TypeError "list indices must be integers or slices, not str")
  | JStr _ => raise (TypeError "string indices must be integers")
  | _ => raise (TypeError "object is not subscriptable")
  end.

Fixpoint chars (s : string) : list json :=
  match s with
  | EmptyString => []
  | String c s' => JStr (String c EmptyString) :: chars s'
  end.

(** [for x in v]: the items the loop visits. *)
Definition iterate (v : json) : result (list json) :=
  match v with
  | JList l => mret l
  | JStr s => mret (chars s)
  | JDict d => mret (map (fun kv => JStr (fst kv)) d)
  | _ => raise (TypeError "object is not iterable")
  end.

(** Monadic map over a list, left to right, stopping at the first raise. *)
Fixpoint mapM {A B : Type} (f : A -> result B) (l : list A) : result (list B) :=
  match l with
  | [] => mret []
  | x :: l' => y ← f x; ys ← mapM f l'; mret (y :: ys)
  end.

End Py.

Import Py.

(** ** wavelink/meta.py *)

Module meta.

(** A function object, with the attributes [meta.py] reads and writes.
    [__wavelink_listeners__] is [None] while the attribute does not exist. *)
Record function : Type := {
  __name__ : string;
  iscoroutinefunction : bool;   (* inspect.iscoroutinefunction(func) *)
  __wavelink_listeners__ : option (list string)
}.

Definition set_listeners (l : list string) (func : function) : function :=
  {| __name__ := __name__ func;
     iscoroutinefunction := iscoroutinefunction func;
     __wavelink_listeners__ := Some l |}.

(** [event or func.__name__], with [event=None] the default. *)
Definition event_or_name (event : option string) (func : function) : string :=
  match event with
  | Some e => if String.eqb e "" then __name__ func else e
  | None => __name__ func
  end.

(** [wrapper(func)], the closure [listener(event)] returns. The result is the
    state of the function object afterwards and the outcome of the call;
    [inr tt] stands for [return func] (the same object). *)
Definition wrapper (event : option string) (func : function)
  : function * result unit :=
  if negb (iscoroutinefunction func) then
    (func, raise (TypeError "Wavelink listeners must be coroutines."))
  else
    let name := event_or_name event func in
    (* getattr(func, "__wavelink_listeners__"): two arguments, no default *)
    match __wavelink_listeners__ func with
    | None => (func, raise (AttributeError "__wavelink_listeners__"))
    | Some listeners =>
        match listeners with
        | _ :: _ => (set_listeners (listeners ++ [name])%list func, mret tt)
        | [] => (set_listeners [name] func, mret tt)
        end
    end.

Definition listener (event : option string) : function -> function * result unit :=
  wrapper event.

(** A member of a class as [inspect.getmembers] lists it: a function, or any
    other object (one without a [__wavelink_listeners__] attribute, such as
    the stored table itself). *)
Inductive member : Type :=
| MFunction (f : function)
| MOther.

(** A class object: its members, in [inspect.getmembers] order, and the
    class attribute [__wavelink_listeners__] ([None] until first assigned). *)
Record class_obj : Type := {
  cls_members : list (string * member);
  cls_listeners : option (gmap string (list string))
}.

(** An instance made by [object.__new__]: it has no attribute of its own
    unless one is assigned to it later. *)
Record instance : Type := {
  own_listeners : option (gmap string (list string))
}.

Definition object_new : instance := {| own_listeners := None |}.

(** [inspect.getmembers(cls)]; once the table is stored on the class it is a
    member too. *)
Definition getmembers (cls : class_obj) : list (string * member) :=
  (cls_members cls ++
   match cls_listeners cls with
   | Some _ => [("__wavelink_listeners__", MOther)]
   | None => []
   end)%list.

(** The body of the inner loop: append to [listeners[listener]], or start a
    new list on [KeyError]. *)
Definition register (name : string) (listeners : gmap string (list string))
    (listener : string) : gmap string (list string) :=
  match listeners !! listener with
  | Some names => <[listener := (names ++ [name])%list]> listeners
  | None => <[listener := [name]]> listeners
  end.

(** One iteration of the outer loop. *)
Definition scan_element (listeners : gmap string (list string))
    (m : string * member) : gmap string (list string) :=
  match snd m with
  | MFunction element =>
      match __wavelink_listeners__ element with
      | Some element_listeners =>
          foldl (register (__name__ element)) listeners element_listeners
      | None => listeners            (* AttributeError: continue *)
      end
  | MOther => listeners              (* AttributeError: continue *)
  end.

Definition scan (cls : class_obj) : gmap string (list string) :=
  foldl scan_element ∅ (getmembers cls).

Definition store (listeners : gmap string (list string)) (cls : class_obj)
  : class_obj :=
  {| cls_members := cls_members cls; cls_listeners := Some listeners |}.

(** [WavelinkMixin.__new__(cls)]: the new instance and the class afterwards. *)
Definition __new__ (cls : class_obj) : instance * class_obj :=
  let listeners := scan cls in
  let self := object_new in
  (self, store listeners cls).

(** [self.__wavelink_listeners__]: the instance's own attribute if it has
    one, the attribute of its class otherwise. *)
Definition instance_listeners (cls : class_obj) (self : instance)
  : option (gmap string (list string)) :=
  match own_listeners self with
  | Some m => Some m
  | None => cls_listeners cls
  end.

(** [setattr(cls, name, value)] on an attribute the class does not yet have
    (the new member is listed last). *)
Definition setattr (name : string) (value : member) (cls : class_obj)
  : class_obj :=
  {| cls_members := (cls_members cls ++ [(name, value)])%list;
     cls_listeners := cls_listeners cls |}.

(** No list of the table is empty. *)
Definition no_empty_list (m : gmap string (list string)) : Prop :=
  forall E l, m !! E = Some l -> l <> [].

(** The handler names a table lists under an event; none when the event is
    not a key. *)
Definition handlers (table : gmap string (list string)) (event : string)
  : list string :=
  default [] (table !! event).

(** Some member of the class is a function named [name] whose marker list
    contains [event]. *)
Definition marked_for (cls : class_obj) (event name : string) : Prop :=
  exists (m : string * member) (f : function) (ls : list string),
    In m (cls_members cls) /\ snd m = MFunction f /\
    __wavelink_listeners__ f = Some ls /\ __name__ f = name /\ In event ls.

End meta.

(** ** wavelink/node.py *)

Module node.

(** *** Collaborators of [Node] *)

(** Modelled from the spec: [Stats] and its [penalty] (stats.py is not part
    of the shown sources): "a numeric [penalty.total] pulled from the last
    stats snapshot". A [Stats] object is truthy, as every instance of a class
    without [__bool__] and [__len__] is. *)
Record Penalty : Type := { total : float }.
Record Stats : Type := { stats_penalty : Penalty }.

(** The ordered log hooks write to, and the two ways [on_event] invokes a
    hook. *)
Inductive entry : Type :=
| Awaited (callee : string) (event : string)
| Called (callee : string) (event : string)
| Note (text : string).

(** A hook: a coroutine function ([async def]) or a plain function, with the
    effect of running its body on the log. *)
Record callable : Type := {
  c_name : string;
  c_iscoroutinefunction : bool;    (* inspect.iscoroutinefunction(hook) *)
  c_body : string -> list entry -> list entry * result unit
}.

(** A hook that only adds lines at the end of the log. *)
Definition appends (f : callable) : Prop :=
  forall ev log, exists lines, fst (c_body f ev log) = (log ++ lines)%list.

(** Modelled from the spec: [Player] (player.py is not part of the shown
    sources): "the core only needs its [destroy()] operation and its [hook]
    attribute (a per-player event sink)"; the hook is a coroutine method. A
    [Player] object is truthy. What [destroy()] does is a parameter of
    [Node.destroy] below. *)
Record Player : Type := {
  guild_id : Z;
  player_hook : callable
}.

Record Event : Type := {
  event_str : string;              (* str(event) *)
  event_player : option Player     (* event.player *)
}.

(** The background receive task of the websocket: [cancel()] either raises
    or records the request. *)
Record Task : Type := {
  cancel_raises : option exn;
  cancel_requested : bool
}.

Record WebSocket : Type := {
  is_connected : bool;
  _task : option Task
}.

(** Modelled from the spec: [Track] and [TrackPlaylist] (player.py):
    "domain payload types returned by REST queries, opaque to this core
    beyond construction". *)
Record Track : Type := { id_ : json; info : json }.
Record TrackPlaylist : Type := { data : json }.

(** *** The node *)

Record Node : Type := {
  host : string;
  port : Z;
  rest_uri : string;
  shards : Z;
  uid : Z;
  password : string;
  region : string;
  identifier : string;
  secure : bool;
  heartbeat : option float;
  shard_id : option Z;
  players : list (Z * Player);     (* dict guild_id -> Player, insertion order *)
  _websocket : option WebSocket;
  hook : option callable;
  available : bool;
  stats : option Stats
}.

Definition set_available (b : bool) (self : Node) : Node :=
  {| host := host self; port := port self; rest_uri := rest_uri self;
     shards := shards self; uid := uid self; password := password self;
     region := region self; identifier := identifier self;
     secure := secure self; heartbeat := heartbeat self;
     shard_id := shard_id self; players := players self;
     _websocket := _websocket self; hook := hook self;
     available := b; stats := stats self |}.

Definition set_stats (s : option Stats) (self : Node) : Node :=
  {| host := host self; port := port self; rest_uri := rest_uri self;
     shards := shards self; uid := uid self; password := password self;
     region := region self; identifier := identifier self;
     secure := secure self; heartbeat := heartbeat self;
     shard_id := shard_id self; players := players self;
     _websocket := _websocket self; hook := hook self;
     available := available self; stats := s |}.

Definition set_websocket (ws : option WebSocket) (self : Node) : Node :=
  {| host := host self; port := port self; rest_uri := rest_uri self;
     shards := shards self; uid := uid self; password := password self;
     region := region self; identifier := identifier self;
     secure := secure self; heartbeat := heartbeat self;
     shard_id := shard_id self; players := players self;
     _websocket := ws; hook := hook self;
     available := available self; stats := stats self |}.

Definition set_players (ps : list (Z * Player)) (self : Node) : Node :=
  {| host := host self; port := port self; rest_uri := rest_uri self;
     shards := shards self; uid := uid self; password := password self;
     region := region self; identifier := identifier self;
     secure := secure self; heartbeat := heartbeat self;
     shard_id := shard_id self; players := ps;
     _websocket := _websocket self; hook := hook self;
     available := available self; stats := stats self |}.

Definition set_hook_field (h : option callable) (self : Node) : Node :=
  {| host := host self; port := port self; rest_uri := rest_uri self;
     shards := shards self; uid := uid self; password := password self;
     region := region self; identifier := identifier self;
     secure := secure self; heartbeat := heartbeat self;
     shard_id := shard_id self; players := players self;
     _websocket := _websocket self; hook := h;
     available := available self; stats := stats self |}.

(** [Node.close] and [Node.open] *)
Definition close (self : Node) : Node := set_available false self.
Definition open (self : Node) : Node := set_available true self.

(** The stats update the websocket performs on a stats message
    ([node.stats = Stats(...)], in websocket.py). *)
Definition update_stats (s : Stats) (self : Node) : Node :=
  set_stats (Some s) self.

(** [Node.penalty] *)
Definition penalty (self : Node) : float :=
  match available self, stats self with
  | true, Some s => total (stats_penalty s)
  | _, _ => 9e30%float
  end.

(** The operations that change what [penalty] reads. *)
Inductive op : Type :=
| Open
| Close
| StatsUpdate (s : Stats).

Definition apply_op (self : Node) (o : op) : Node :=
  match o with
  | Open => open self
  | Close => close self
  | StatsUpdate s => update_stats s self
  end.

Definition run_ops (ops : list op) (self : Node) : Node :=
  foldl apply_op self ops.

(** *** REST queries *)

Record response : Type := {
  status : Z;                      (* resp.status *)
  body : json                      (* await resp.json() *)
}.

Record request : Type := {
  url : string;
  headers : list (string * string);
  params : list (string * string)
}.

Inductive io_event : Type :=
| Get (r : request)                (* session.get(...) *)
| Sleep (ms : Z).                  (* asyncio.sleep, in milliseconds *)

(** The global names of the module. [node.py] imports [inspect], [logging]
    and [quote] by name; it has no [import asyncio], so the name [asyncio]
    is bound only if one of its star imports ([from .errors import *],
    a file outside the shown sources) provides it. *)
Record module_globals : Type := {
  has_asyncio : bool
}.

Inductive search_result : Type :=
| RNone                            (* return None *)
| RPlaylist (p : TrackPlaylist)    (* return TrackPlaylist(data=data) *)
| RTracks (l : list Track).        (* return tracks *)

Section Rest.

(** [urllib.parse.quote] *)
Variable quote : string -> string.
Variable g : module_globals.
(** The response the server gives to the k-th request (k from 0). *)
Variable server : nat -> response.

Definition loadtracks_request (self : Node) (query : string) : request :=
  {| url := rest_uri self ++ "/loadtracks?identifier=" ++ quote query;
     headers := [("Authorization", password self)];
     params := [] |}.

Definition decodetrack_request (self : Node) (track : string) : request :=
  {| url := rest_uri self ++ "/decodetrack";
     headers := [("Authorization", password self)];
     params := [("track", track)] |}.

(** The [while retries > 0] loop of [get_tracks]: [k] requests were made
    so far, [data] is the last decoded body. It returns the value of
    [retries] and of [data] when the loop is left. *)
Fixpoint retry_loop (req : request) (retries : nat) (k : nat)
    (data : option json) : list io_event * result (nat * option json) :=
  match retries with
  | O => ([], mret (O, data))
  | S r =>
      let resp := server k in
      let data := body resp in
      if negb (status resp =? 200) then
        (* retries -= 1, then await asyncio.sleep(0.2) *)
        if has_asyncio g then
          let '(tr, out) := retry_loop req r (S k) (Some data) in
          (Get req :: Sleep 200 :: tr, out)
        else
          ([Get req], raise (NameError "asyncio"))
      else
        (* break *)
        ([Get req], mret (S r, Some data))
  end.

(** [retries == 0 or not data.get("tracks", None)] *)
Definition no_tracks (retries : nat) (data : option json) : result bool :=
  if (retries =? 0)%nat then mret true
  else
    match data with
    | Some d => t ← dict_get d "tracks"; mret (negb (truthy t))
    | None => raise (UnboundLocalError "data")
    end.

(** [Track(id_=track["track"], info=track["info"])] *)
Definition make_track (track : json) : result Track :=
  i ← subscript track "track";
  inf ← subscript track "info";
  mret {| id_ := i; info := inf |}.

(** What [get_tracks] does once tracks were found. *)
Definition found_tracks (d : json) : result search_result :=
  pl ← subscript d "playlistInfo";
  if truthy pl then mret (RPlaylist {| data := d |})
  else
    ts ← subscript d "tracks";
    items ← iterate ts;
    tracks ← mapM make_track items;
    mret (RTracks tracks).

(** [Node.get_tracks] *)
Definition get_tracks (self : Node) (query : string)
  : list io_event * result search_result :=
  let '(tr, out) := retry_loop (loadtracks_request self query) 5 0 None in
  (tr,
   '(retries, data) ← out;
   none ← no_tracks retries data;
   if (none : bool) then mret RNone
   else
     match data with
     | Some d => found_tracks d
     | None => raise (UnboundLocalError "data")
     end).

(** The lines after the loop when it was left by [break] ([retries] is
    not 0) with the decoded body [d]. *)
Definition decide_result (d : json) : result search_result :=
  t ← dict_get d "tracks";
  if truthy t then found_tracks d else mret RNone.

(** The message of the [BuildTrackError], an f-string. *)
Definition build_track_message (st err : json) : list fragment :=
  [Lit "Failed to build track. Status: "; Fmt st; Lit ", Error: "; Fmt err;
   Lit ".Check the identfier is correct and try again."].

(** [Node.build_track] *)
Definition build_track (self : Node) (identifier : string)
  : list io_event * result Track :=
  let resp := server 0 in
  let d := body resp in
  ([Get (decodetrack_request self identifier)],
   if negb (status resp =? 200) then
     st ← subscript d "status";
     err ← subscript d "error";
     raise (BuildTrackError (build_track_message st err))
   else
     mret {| id_ := JStr identifier; info := d |}).

End Rest.

(** [Node.get_player] *)
Fixpoint get_player_in (ps : list (Z * Player)) (guild : Z) : option Player :=
  match ps with
  | [] => None
  | (k, p) :: ps' => if k =? guild then Some p else get_player_in ps' guild
  end.

Definition get_player (self : Node) (guild : Z) : option Player :=
  get_player_in (players self) guild.

(** *** Event dispatch *)

(** [await f(event)] *)
Definition await_call (f : callable) (event : Event) (log : list entry)
  : list entry * result unit :=
  c_body f (event_str event) (log ++ [Awaited (c_name f) (event_str event)])%list.

(** [f(event)], the result discarded *)
Definition sync_call (f : callable) (event : Event) (log : list entry)
  : list entry * result unit :=
  c_body f (event_str event) (log ++ [Called (c_name f) (event_str event)])%list.

(** [Node.on_event] *)
Definition on_event (self : Node) (event : Event) (log : list entry)
  : list entry * result unit :=
  let '(log1, r1) :=
    match event_player event with
    | Some player => await_call (player_hook player) event log
    | None => (log, mret tt)
    end in
  match r1 with
  | inl e => (log1, raise e)
  | inr _ =>
      match hook self with
      | None => (log1, mret tt)
      | Some h =>
          if c_iscoroutinefunction h then await_call h event log1
          else sync_call h event log1
      end
  end.

(** [Node.set_hook]; [func] is [None] when the argument is not callable. *)
Definition set_hook (self : Node) (func : option callable) : Node * result unit :=
  match func with
  | None => (self, raise (WavelinkException "Node hook must be a callable."))
  | Some f => (set_hook_field (Some f) self, mret tt)
  end.

(** *** Teardown *)

(** The node together with the registry of its client
    ([self._client.nodes], a dict from identifier to node; the value kept
    here is a handle of the node object). *)
Record World : Type := {
  self_node : Node;
  client_nodes : gmap string nat
}.

Definition with_node (n : Node) (w : World) : World :=
  {| self_node := n; client_nodes := client_nodes w |}.

Definition with_nodes (r : gmap string nat) (w : World) : World :=
  {| self_node := self_node w; client_nodes := r |}.

Section Destroy.

(** [Player.destroy] (player.py): any change of the node and the registry,
    together with its outcome. *)
Variable Player_destroy : Player -> World -> World * result unit.

(** [for player in players.values(): await player.destroy()], over the
    copy [players]. Besides the state and the outcome it returns the keys
    of the players whose [destroy] was called, in call order. *)
Fixpoint destroy_each (snapshot : list (Z * Player)) (w : World)
  : list Z * (World * result unit) :=
  match snapshot with
  | [] => ([], (w, mret tt))
  | (k, player) :: rest =>
      match Player_destroy player w with
      | (w', inl e) => ([k], (w', raise e))
      | (w', inr _) =>
          let '(calls, out) := destroy_each rest w' in
          (k :: calls, out)
      end
  end.

(** [self._websocket._task.cancel()] *)
Definition cancel (t : Task) : Task * result unit :=
  match cancel_raises t with
  | Some e => (t, raise e)
  | None => ({| cancel_raises := None; cancel_requested := true |}, mret tt)
  end.

(** The [try: ... except Exception: pass] block. *)
Definition cancel_task (self : Node) : Node :=
  match _websocket self with
  | Some ws =>
      match _task ws with
      | Some t =>
          match cancel t with
          | (t', inr _) =>
              set_websocket
                (Some {| is_connected := is_connected ws; _task := Some t' |})
                self
          | (_, inl _) => self   (* except Exception: pass *)
          end
      | None => self
      end
  | None => self
  end.

(** [del self._client.nodes[self.identifier]] *)
Definition del_node (w : World) : World * result unit :=
  let key := identifier (self_node w) in
  match client_nodes w !! key with
  | Some _ => (with_nodes (delete key (client_nodes w)) w, mret tt)
  | None => (w, raise (KeyError key))
  end.

(** [Node.destroy] *)
Definition destroy (w : World) : list Z * (World * result unit) :=
  let snapshot := players (self_node w) in      (* self.players.copy() *)
  match destroy_each snapshot w with
  | (calls, (w1, inl e)) => (calls, (w1, raise e))
  | (calls, (w1, inr _)) =>
      let w2 := with_node (cancel_task (self_node w1)) w1 in
      (calls, del_node w2)
  end.

(** A run of the loop in which no call raises: [returns_all snapshot w w1]
    when calling [destroy] on the players of [snapshot] in turn, starting in
    [w], returns normally each time and ends in [w1]. *)
Inductive returns_all : list (Z * Player) -> World -> World -> Prop :=
| returns_nil (w : World) : returns_all [] w w
| returns_cons (k : Z) (player : Player) (rest : list (Z * Player))
    (w w' w1 : World) :
    Player_destroy player w = (w', inr tt) ->
    returns_all rest w' w1 ->
    returns_all ((k, player) :: rest) w w1.

(** A [Player.destroy] that leaves the registry and the node's identifier
    alone. *)
Definition keeps_registry : Prop :=
  forall p w,
    client_nodes (fst (Player_destroy p w)) = client_nodes w /\
    identifier (self_node (fst (Player_destroy p w))) = identifier (self_node w).

End Destroy.

(** The namespace the import lines of [node.py] (lines 23 to 30) give the
    module: [inspect], [logging], [quote], the names of [errors], [Track],
    [TrackPlaylist] and [WebSocket]. No line imports [asyncio]. *)
Definition node_globals : module_globals := {| has_asyncio := false |}.

(** *** The remaining members of [Node] *)

(** [Node.__init__]; the session and the client are kept outside the node
    (the server oracle and the registry). *)
Definition __init__ (host0 : string) (port0 : Z) (shards0 : Z) (user_id : Z)
    (rest_uri0 password0 region0 identifier0 : string)
    (shard_id0 : option Z) (secure0 : bool) (heartbeat0 : option float) : Node :=
  {| host := host0; port := port0; rest_uri := rest_uri0; shards := shards0;
     uid := user_id; password := password0; region := region0;
     identifier := identifier0; secure := secure0; heartbeat := heartbeat0;
     shard_id := shard_id0; players := []; _websocket := None; hook := None;
     available := true; stats := None |}.

(** [Node.is_available] *)
Definition is_available (self : Node) : bool :=
  match _websocket self with
  | Some ws => is_connected ws && available self
  | None => false
  end.

(** The requests and the pauses in a trace. *)
Definition is_get (e : io_event) : bool :=
  match e with Get _ => true | Sleep _ => false end.

Definition gets (tr : list io_event) : nat := length (List.filter is_get tr).

Definition sleeps (tr : list io_event) : nat :=
  length (List.filter (fun e => negb (is_get e)) tr).

End node.

Import meta node.

(** ** Sample objects used by the examples below *)

Module samples.

(** [async def on_node_ready(self, node): ...], not yet decorated. *)
Definition on_node_ready : function :=
  {| __name__ := "on_node_ready"; iscoroutinefunction := true;
     __wavelink_listeners__ := None |}.

(** [def ready(node): ...], a plain function. *)
Definition plain_ready : function :=
  {| __name__ := "ready"; iscoroutinefunction := false;
     __wavelink_listeners__ := None |}.

(** A coroutine function that already carries a marker list. *)
Definition marked_ready : function :=
  {| __name__ := "node_ready_event"; iscoroutinefunction := true;
     __wavelink_listeners__ := Some ["on_node_ready"] |}.

Definition marked_end : function :=
  {| __name__ := "track_end_event"; iscoroutinefunction := true;
     __wavelink_listeners__ := Some ["on_track_end"] |}.

(** A cog class with one marked method, never instantiated. *)
Definition MusicCog : class_obj :=
  {| cls_members := [("node_ready_event", MFunction marked_ready)];
     cls_listeners := None |}.

(** The same class after a first instantiation, and then after
    [MusicCog.track_end_event = track_end_event]. *)
Definition MusicCog_once : class_obj := snd (__new__ MusicCog).
Definition MusicCog_patched : class_obj :=
  setattr "track_end_event" (MFunction marked_end) MusicCog_once.

(** A node as [Client.initiate_node] creates it. *)
Definition main_node : Node :=
  {| host := "127.0.0.1"; port := 2333; rest_uri := "http://127.0.0.1:2333";
     shards := 1; uid := 42; password := "youshallnotpass";
     region := "us_central"; identifier := "MAIN"; secure := false;
     heartbeat := None; shard_id := None; players := [];
     _websocket := None; hook := None; available := true; stats := None |}.

(** The module namespace with and without a binding of [asyncio]. *)
Definition asyncio_imported : module_globals := {| has_asyncio := true |}.
Definition asyncio_missing : module_globals := {| has_asyncio := false |}.

(** [quote] leaves a query of unreserved characters as it is. *)
Definition quote_plain (s : string) : string := s.

Definition error_body : json :=
  JDict [("timestamp", JInt 1580000000); ("status", JInt 500);
         ("error", JStr "Internal Server Error"); ("path", JStr "/loadtracks")].

(** A server that answers 500 to every request. *)
Definition always_500 (k : nat) : response :=
  {| status := 500; body := error_body |}.

(** Two 503 answers, then 200 with [{tracks: [], playlistInfo: null}]. *)
Definition third_is_empty (k : nat) : response :=
  if (k <? 2)%nat then {| status := 503; body := error_body |}
  else {| status := 200;
          body := JDict [("playlistInfo", JNull); ("tracks", JList [])] |}.

Definition track_entry (i : string) : json :=
  JDict [("track", JStr i); ("info", JDict [("title", JStr i)])].

(** The answer to a search: one track, [playlistInfo] the empty object. *)
Definition search_body : json :=
  JDict [("playlistInfo", JDict []); ("loadType", JStr "SEARCH_RESULT");
         ("tracks", JList [track_entry "QAAAjQIAJVJpY2s"])].

Definition search_server (k : nat) : response :=
  {| status := 200; body := search_body |}.

(** The answer to a playlist URL: two tracks and playlist metadata. *)
Definition playlist_body : json :=
  JDict [("playlistInfo", JDict [("name", JStr "mix"); ("selectedTrack", JInt 0)]);
         ("loadType", JStr "PLAYLIST_LOADED");
         ("tracks", JList [track_entry "QAAAjQIAJVJpY2s"; track_entry "QAAAkQIAKk5l"])].

Definition playlist_server (k : nat) : response :=
  {| status := 200; body := playlist_body |}.

(** Playlist metadata with an empty track list. *)
Definition empty_playlist_server (k : nat) : response :=
  {| status := 200;
     body := JDict [("playlistInfo", JDict [("name", JStr "mix")]);
                    ("tracks", JList [])] |}.

(** A 200 answer whose [tracks] entry is not a list. *)
Definition odd_server (k : nat) : response :=
  {| status := 200; body := JDict [("tracks", JInt 5)] |}.

(** Answers to [/decodetrack]. *)
Definition decode_ok (k : nat) : response :=
  {| status := 200; body := JDict [("title", JStr "Never Gonna Give You Up")] |}.

Definition decode_failed (k : nat) : response :=
  {| status := 500; body := error_body |}.

Definition decode_not_found (k : nat) : response :=
  {| status := 404; body := JDict [("message", JStr "Not Found")] |}.

(** Hooks that write one line to the log. *)
Definition writer (name : string) (co : bool) (line : string) : callable :=
  {| c_name := name; c_iscoroutinefunction := co;
     c_body := fun _ log => ((log ++ [Note line])%list, inr tt) |}.

Definition failing (name : string) : callable :=
  {| c_name := name; c_iscoroutinefunction := true;
     c_body := fun _ log => (log, inl (OtherError "hook failed")) |}.

Definition player_of (guild : Z) : Player :=
  {| guild_id := guild; player_hook := writer "Player.hook" true "player" |}.

Definition track_start : Event :=
  {| event_str := "TrackStart"; event_player := Some (player_of 1) |}.

Definition node_with_hook (h : callable) : Node :=
  set_hook_field (Some h) main_node.

(** A node with three players, registered with its client. *)
Definition three_players : World :=
  {| self_node := set_players [(1, player_of 1); (2, player_of 2); (3, player_of 3)]
                              main_node;
     client_nodes := {["MAIN" := 0%nat]} |}.

Definition remove_player (guild : Z) (w : World) : World :=
  with_node
    (set_players (filter (fun kp => negb (fst kp =? guild)) (players (self_node w)))
                 (self_node w))
    w.

(** [Player.destroy] removing the player from its node. *)
Definition destroy_ok (p : Player) (w : World) : World * result unit :=
  (remove_player (guild_id p) w, inr tt).

(** The same, but the player of guild 2 raises. *)
Definition destroy_second_raises (p : Player) (w : World) : World * result unit :=
  if guild_id p =? 2 then (w, inl (OtherError "destroy failed"))
  else destroy_ok p w.

(** The same node with the players of guilds 1 and 3 only. *)
Definition two_players : World :=
  {| self_node := set_players [(1, player_of 1); (3, player_of 3)] main_node;
     client_nodes := {["MAIN" := 0%nat]} |}.

(** A connected node whose receive task is running, without players. *)
Definition running_task : Task :=
  {| cancel_raises := None; cancel_requested := false |}.

Definition connected_world : World :=
  {| self_node :=
       set_websocket (Some {| is_connected := true; _task := Some running_task |})
                     main_node;
     client_nodes := {["MAIN" := 0%nat]} |}.

End samples.

(** ** Properties of wavelink/meta.py *)

Section MetaFacts.

Import samples.

(** With the attribute present, the marker adds the event name at the
    end of the list and returns the function. *)
Lemma wrapper_appends (event : option string) (func : function)
    (listeners : list string) :
  iscoroutinefunction func = true ->
  __wavelink_listeners__ func = Some listeners ->
  wrapper event func =
    (set_listeners (listeners ++ [event_or_name event func])%list func, inr tt).
Proof.
  intros Hco Hl. unfold wrapper. rewrite Hco, Hl. simpl.
  destruct listeners; reflexivity.
Qed.

(** Without the attribute, the two-argument [getattr] raises for every
    coroutine function and every event argument. *)
Lemma wrapper_unmarked_raises (event : option string) (func : function) :
  iscoroutinefunction func = true ->
  __wavelink_listeners__ func = None ->
  wrapper event func = (func, inl (AttributeError "__wavelink_listeners__")).
Proof.
  intros Hco Hl. unfold wrapper. rewrite Hco, Hl. reflexivity.
Qed.

Lemma event_or_name_default (func : function) :
  event_or_name None func = __name__ func.
Proof. reflexivity. Qed.

(** The stored table is a member without marker, so the scan reads the
    declared members only. *)
Lemma scan_members (cls : class_obj) :
  scan cls = foldl scan_element ∅ (cls_members cls).
Proof.
  unfold scan, getmembers. rewrite foldl_app.
  destruct (cls_listeners cls); reflexivity.
Qed.

Lemma scan_store (t : gmap string (list string)) (cls : class_obj) :
  scan (store t cls) = scan cls.
Proof. rewrite !scan_members. reflexivity. Qed.

Lemma scan_setattr (name : string) (value : member) (cls : class_obj) :
  scan (setattr name value cls) = scan_element (scan cls) (name, value).
Proof.
  rewrite !scan_members. unfold setattr. simpl. rewrite foldl_app. reflexivity.
Qed.

End MetaFacts.

(** C9. Applying the listener marker to a function that is not a coroutine
    function raises [TypeError]; the function object is left as it was, so
    nothing has been registered on it. *)
Theorem listener_rejects_non_coroutine (event : option string) (func : function) :
  iscoroutinefunction func = false ->
  listener event func =
    (func, inl (TypeError "Wavelink listeners must be coroutines.")).
Proof.
  intros Hco. unfold listener, wrapper. rewrite Hco. reflexivity.
Qed.

Lemma listener_rejects_non_coroutine_witness :
  iscoroutinefunction samples.plain_ready = false /\
  listener (Some "on_node_ready") samples.plain_ready =
    (samples.plain_ready, inl (TypeError "Wavelink listeners must be coroutines.")).
Proof.
  split; [reflexivity | apply listener_rejects_non_coroutine; reflexivity].
Defined.

(** C2. The marker with no event argument, applied to a freshly defined
    coroutine function, does not register it: [getattr] finds no
    [__wavelink_listeners__] attribute and raises [AttributeError], and the
    function object is left without the attribute. *)
Theorem listener_fresh_coroutine_raises :
  listener None samples.on_node_ready =
    (samples.on_node_ready, inl (AttributeError "__wavelink_listeners__")).
Proof. reflexivity. Qed.

(** C4, as stated: a class that already stores a table keeps it at the next
    instantiation. It fails for a class that gained a marked method after
    its first instantiation: the next instantiation scans again and stores a
    different table. *)
Lemma new_reuses_table_counterexample :
  ~ (forall (cls : class_obj) (t : gmap string (list string)),
       cls_listeners cls = Some t ->
       cls_listeners (snd (__new__ cls)) = Some t).
Proof.
  intros H.
  specialize (H samples.MusicCog_patched _ eq_refl).
  apply (f_equal (fun o => o ≫= (fun t => t !! "on_track_end"))) in H.
  vm_compute in H. discriminate H.
Qed.

(** C4, amended. Every instantiation runs the member scan and stores its
    result on the class, replacing the table stored before; the members are
    left as they were, so instantiating again without changing the class
    stores an equal table; and an instance has no table of its own: it reads
    the table of its class, whichever instantiation stored it. *)
Theorem new_scans_and_stores (cls : class_obj) :
  cls_listeners (snd (__new__ cls)) = Some (foldl scan_element ∅ (cls_members cls)) /\
  cls_members (snd (__new__ cls)) = cls_members cls /\
  cls_listeners (snd (__new__ (snd (__new__ cls)))) = cls_listeners (snd (__new__ cls)) /\
  (forall now : class_obj,
     instance_listeners now (fst (__new__ cls)) = cls_listeners now).
Proof.
  repeat split.
  - simpl. rewrite scan_members. reflexivity.
  - simpl. rewrite scan_store. reflexivity.
Qed.

(** ** Properties of wavelink/node.py: availability and penalty *)

Section PenaltyFacts.

Lemma run_ops_snoc (ops : list op) (o : op) (self : Node) :
  run_ops (ops ++ [o]) self = apply_op (run_ops ops self) o.
Proof. unfold run_ops. rewrite foldl_app. reflexivity. Qed.

(** [close], [open] and a stats update write one field each. *)
Lemma apply_op_frame (o : op) (self : Node) (b : bool) (s : option Stats) :
  set_available b (set_stats s (apply_op self o)) =
  set_available b (set_stats s self).
Proof. destruct o; reflexivity. Qed.

Lemma run_ops_frame (ops : list op) (self : Node) (b : bool) (s : option Stats) :
  set_available b (set_stats s (run_ops ops self)) =
  set_available b (set_stats s self).
Proof.
  revert self. induction ops as [|o ops IH]; intros self.
  - reflexivity.
  - unfold run_ops in *. simpl. rewrite IH. apply apply_op_frame.
Qed.

Lemma penalty_unavailable (self : Node) :
  available self = false -> penalty self = 9e30%float.
Proof. intros H. unfold penalty. rewrite H. reflexivity. Qed.

Lemma penalty_no_stats (self : Node) :
  stats self = None -> penalty self = 9e30%float.
Proof. intros H. unfold penalty. rewrite H. destruct (available self); reflexivity. Qed.

Lemma penalty_total (self : Node) (s : Stats) :
  available self = true -> stats self = Some s ->
  penalty self = total (stats_penalty s).
Proof. intros Ha Hs. unfold penalty. rewrite Ha, Hs. reflexivity. Qed.

End PenaltyFacts.

(** C5. After any sequence of [open()], [close()] and stats updates applied
    to any node, [penalty] (a function of the node state alone) is the
    sentinel [9e30] when [available] is false or there is no stats snapshot,
    and [stats.penalty.total] otherwise. [close()] leaves [available] false,
    [open()] leaves it true, neither changes [stats], a stats update leaves
    [available] as it was, and no operation changes any other field. *)
Theorem penalty_after_ops (ops : list op) (self : Node) :
  let n := run_ops ops self in
  (available n = false \/ stats n = None -> penalty n = 9e30%float) /\
  (forall s, available n = true -> stats n = Some s ->
             penalty n = total (stats_penalty s)) /\
  (available (close n) = false /\ stats (close n) = stats n) /\
  (available (open n) = true /\ stats (open n) = stats n) /\
  (forall s, available (update_stats s n) = available n /\
             stats (update_stats s n) = Some s) /\
  (forall b s, set_available b (set_stats s n) = set_available b (set_stats s self)).
Proof.
  intros n. repeat split.
  - intros [H|H]; [apply penalty_unavailable | apply penalty_no_stats]; exact H.
  - intros s Ha Hs. apply penalty_total; assumption.
  - intros b s. apply run_ops_frame.
Qed.

(** ** Properties of wavelink/node.py: REST queries *)

Section RestFacts.

Variable g : module_globals.
Variable server : nat -> response.
Variable req : request.

(** Leaving the loop by [break]. *)
Lemma retry_loop_break (r k : nat) (d0 : option json) :
  status (server k) = 200 ->
  retry_loop g server req (S r) k d0 =
    ([Get req], inr (S r, Some (body (server k)))).
Proof. intros H. simpl. rewrite H. reflexivity. Qed.

Lemma retry_loop_unbound (r k : nat) (d0 : option json) :
  has_asyncio g = false ->
  status (server k) <> 200 ->
  retry_loop g server req (S r) k d0 = ([Get req], inl (NameError "asyncio")).
Proof.
  intros Hg H. simpl. apply Z.eqb_neq in H. rewrite H, Hg. reflexivity.
Qed.

Lemma retry_loop_exhausted (r k : nat) (d0 : option json) :
  has_asyncio g = true ->
  (forall j, (k <= j < k + r)%nat -> status (server j) <> 200) ->
  exists d,
    retry_loop g server req r k d0 =
      (concat (replicate r [Get req; Sleep 200]), inr (O, d)).
Proof.
  intros Hg. revert k d0. induction r as [|r IH]; intros k d0 Hk.
  - exists d0. reflexivity.
  - assert (H : status (server k) <> 200) by (apply Hk; lia).
    apply Z.eqb_neq in H.
    destruct (IH (S k) (Some (body (server k)))) as [d Hd].
    { intros j Hj. apply Hk. lia. }
    exists d. simpl. rewrite H, Hg. simpl. rewrite Hd. reflexivity.
Qed.

Lemma retry_loop_succeeds (n r k : nat) (d0 : option json) :
  has_asyncio g = true ->
  (forall j, (k <= j < k + n)%nat -> status (server j) <> 200) ->
  status (server (k + n)) = 200 ->
  retry_loop g server req (n + S r) k d0 =
    ((concat (replicate n [Get req; Sleep 200]) ++ [Get req])%list,
     inr (S r, Some (body (server (k + n)%nat)))).
Proof.
  intros Hg. revert k d0. induction n as [|n IH]; intros k d0 Hk Hok.
  - rewrite Nat.add_0_r in Hok. simpl. rewrite Hok. simpl.
    rewrite Nat.add_0_r. reflexivity.
  - assert (H : status (server k) <> 200) by (apply Hk; lia).
    apply Z.eqb_neq in H.
    change (S n + S r)%nat with (S (n + S r)).
    simpl retry_loop. rewrite H, Hg. simpl negb. cbv iota.
    rewrite (IH (S k) (Some (body (server k)))).
    + replace (S k + n)%nat with (k + S n)%nat by lia. reflexivity.
    + intros j Hj. apply Hk. lia.
    + replace (S k + n)%nat with (k + S n)%nat by lia. exact Hok.
Qed.

(** The loop as [get_tracks] runs it: 5 retries, first request 0. *)
Lemma retry_loop_first_200 (n : nat) :
  n = O \/ has_asyncio g = true ->
  (n < 5)%nat ->
  (forall k, (k < n)%nat -> status (server k) <> 200) ->
  status (server n) = 200 ->
  retry_loop g server req 5 0 None =
    ((concat (replicate n [Get req; Sleep 200]) ++ [Get req])%list,
     inr ((5 - n)%nat, Some (body (server n)))).
Proof.
  intros [->|Hg] Hn Hk Hok.
  - apply retry_loop_break. exact Hok.
  - replace 5%nat with (n + S (4 - n))%nat at 1 by lia.
    rewrite retry_loop_succeeds; try assumption.
    + simpl. repeat f_equal. lia.
    + intros j Hj. apply Hk. lia.
Qed.

End RestFacts.

Section GetTracksFacts.

Variable quote : string -> string.
Variable g : module_globals.
Variable server : nat -> response.
Variable self : Node.
Variable query : string.

Let req : request := loadtracks_request quote self query.

Lemma get_tracks_first_200 (n : nat) :
  n = O \/ has_asyncio g = true ->
  (n < 5)%nat ->
  (forall k, (k < n)%nat -> status (server k) <> 200) ->
  status (server n) = 200 ->
  get_tracks quote g server self query =
    ((concat (replicate n [Get req; Sleep 200]) ++ [Get req])%list,
     decide_result (body (server n))).
Proof.
  intros Hg Hn Hk Hok. unfold get_tracks.
  rewrite (retry_loop_first_200 g server _ n Hg Hn Hk Hok).
  f_equal. unfold decide_result.
  destruct (5 - n)%nat as [|m] eqn:Hm; [lia|].
  unfold no_tracks. simpl. destruct (dict_get (body (server n)) "tracks") as [e|t]; simpl.
  - reflexivity.
  - destruct (truthy t); reflexivity.
Qed.

Lemma get_tracks_exhausted :
  has_asyncio g = true ->
  (forall k, (k < 5)%nat -> status (server k) <> 200) ->
  get_tracks quote g server self query =
    (concat (replicate 5 [Get req; Sleep 200]), inr RNone).
Proof.
  intros Hg Hk. unfold get_tracks.
  destruct (retry_loop_exhausted g server req 5 0 None Hg) as [d Hd].
  { intros j Hj. apply Hk. lia. }
  fold req. rewrite Hd. reflexivity.
Qed.

(** Without a binding of [asyncio] the first answer other than 200 ends
    the call with [NameError]: there is no second attempt. *)
Lemma get_tracks_asyncio_unbound :
  has_asyncio g = false ->
  status (server 0) <> 200 ->
  get_tracks quote g server self query = ([Get req], inl (NameError "asyncio")).
Proof.
  intros Hg H. unfold get_tracks. fold req.
  rewrite (retry_loop_unbound g server req 4 0 None Hg H). reflexivity.
Qed.

(** [decide_result] on a JSON object, by the truth value of its entries. *)
Lemma decide_result_no_tracks (d : list (string * json)) :
  truthy (default JNull (assoc "tracks" d)) = false ->
  decide_result (JDict d) = inr RNone.
Proof. intros H. unfold decide_result. simpl. rewrite H. reflexivity. Qed.

Lemma decide_result_playlist (d : list (string * json)) (pl : json) :
  truthy (default JNull (assoc "tracks" d)) = true ->
  assoc "playlistInfo" d = Some pl ->
  truthy pl = true ->
  decide_result (JDict d) = inr (RPlaylist {| data := JDict d |}).
Proof.
  intros Ht Hp Hpl. unfold decide_result, found_tracks. simpl.
  rewrite Ht, Hp. simpl. rewrite Hpl. reflexivity.
Qed.

Lemma decide_result_tracks (d : list (string * json)) (pl : json)
    (items : list json) (l : list Track) :
  assoc "tracks" d = Some (JList items) ->
  items <> [] ->
  assoc "playlistInfo" d = Some pl ->
  truthy pl = false ->
  mapM make_track items = inr l ->
  decide_result (JDict d) = inr (RTracks l).
Proof.
  intros Ht Hne Hp Hpl Hl. unfold decide_result, found_tracks. simpl.
  rewrite Ht, Hp. simpl. rewrite Hpl.
  destruct items as [|i items]; [contradiction|].
  simpl in *. rewrite Hl. reflexivity.
Qed.

(** [None] is returned after a 200 answer exactly when the body is an
    object whose [tracks] entry is missing or falsy. *)
Lemma decide_result_none_iff (d : json) :
  decide_result d = inr RNone <->
  exists o, d = JDict o /\ truthy (default JNull (assoc "tracks" o)) = false.
Proof.
  split.
  - unfold decide_result, found_tracks.
    destruct d as [| | | | | |o]; simpl; try discriminate.
    intros H. exists o. split; [reflexivity|].
    destruct (truthy (default JNull (assoc "tracks" o))); [|reflexivity].
    exfalso. revert H.
    destruct (assoc "playlistInfo" o) as [pl|]; simpl; [|discriminate].
    destruct (truthy pl); [discriminate|].
    destruct (assoc "tracks" o) as [ts|]; simpl; [|discriminate].
    destruct (iterate ts) as [e|items]; simpl; [discriminate|].
    destruct (mapM make_track items); simpl; discriminate.
  - intros (o & -> & H). apply decide_result_no_tracks. exact H.
Qed.

End GetTracksFacts.

(** The retry policy as it runs in a namespace that binds [asyncio]: when
    the first five answers all have a status other than 200, [get_tracks] makes exactly
    five requests, pauses 200 ms after each of them, and returns [None]
    without raising. When the first answer with status 200 is the one to
    request [n] (fewer than five went before), the requests before it are
    each followed by a 200 ms pause and no request follows it; and if its
    decoded body is an object whose [tracks] entry is missing, [null] or the
    empty list, the call returns [None]. *)
Theorem get_tracks_retry_policy (quote : string -> string) (g : module_globals)
    (server : nat -> response) (self : Node) (query : string) :
  has_asyncio g = true ->
  let req := loadtracks_request quote self query in
  ((forall k, (k < 5)%nat -> status (server k) <> 200) ->
   get_tracks quote g server self query =
     (concat (replicate 5 [Get req; Sleep 200]), inr RNone)) /\
  (forall n, (n < 5)%nat ->
     (forall k, (k < n)%nat -> status (server k) <> 200) ->
     status (server n) = 200 ->
     fst (get_tracks quote g server self query) =
       (concat (replicate n [Get req; Sleep 200]) ++ [Get req])%list /\
     (forall d, body (server n) = JDict d ->
        assoc "tracks" d = None \/ assoc "tracks" d = Some JNull \/
        assoc "tracks" d = Some (JList []) ->
        snd (get_tracks quote g server self query) = inr RNone)).
Proof.
  intros Hg req. split.
  - intros Hk. apply get_tracks_exhausted; assumption.
  - intros n Hn Hk Hok.
    rewrite (get_tracks_first_200 quote g server self query n (or_intror Hg) Hn Hk Hok).
    split; [reflexivity|].
    intros d Hd Ht. simpl. rewrite Hd. apply decide_result_no_tracks.
    destruct Ht as [-> | [-> | ->]]; reflexivity.
Qed.

Lemma get_tracks_retry_policy_witness :
  has_asyncio samples.asyncio_imported = true /\
  get_tracks samples.quote_plain samples.asyncio_imported samples.always_500
             samples.main_node "abc" =
    (concat (replicate 5
       [Get (loadtracks_request samples.quote_plain samples.main_node "abc");
        Sleep 200]), inr RNone) /\
  snd (get_tracks samples.quote_plain samples.asyncio_imported
                  samples.third_is_empty samples.main_node "abc") = inr RNone.
Proof.
  split; [reflexivity|].
  pose proof (get_tracks_retry_policy samples.quote_plain samples.asyncio_imported
                samples.always_500 samples.main_node "abc" eq_refl) as [H _].
  pose proof (get_tracks_retry_policy samples.quote_plain samples.asyncio_imported
                samples.third_is_empty samples.main_node "abc" eq_refl) as [_ H'].
  split.
  - apply H. intros k _. simpl. discriminate.
  - destruct (H' 2%nat) as [_ H2].
    + lia.
    + intros k Hk. destruct k as [|[|k]]; simpl; try discriminate. lia.
    + reflexivity.
    + apply (H2 [("playlistInfo", JNull); ("tracks", JList [])]).
      * reflexivity.
      * right. right. reflexivity.
Defined.

(** C1. In the module as it is written the retry policy does not run: the
    name [asyncio] is not bound, so after the first answer with a status
    other than 200 the pause [asyncio.sleep(0.2)] raises [NameError]. There
    has been one request, no second attempt follows and [None] is not
    returned, for every query and every node. *)
Theorem get_tracks_retry_raises (quote : string -> string)
    (server : nat -> response) (self : Node) (query : string) :
  status (server O) <> 200 ->
  get_tracks quote node_globals server self query =
    ([Get (loadtracks_request quote self query)], inl (NameError "asyncio")).
Proof.
  intros H. apply get_tracks_asyncio_unbound; [reflexivity | exact H].
Qed.

Lemma get_tracks_retry_raises_witness :
  status (samples.always_500 O) <> 200 /\
  get_tracks samples.quote_plain node_globals samples.always_500
             samples.main_node "abc" =
    ([Get (loadtracks_request samples.quote_plain samples.main_node "abc")],
     inl (NameError "asyncio")).
Proof.
  assert (H : status (samples.always_500 O) <> 200) by (simpl; discriminate).
  split; [exact H|].
  exact (get_tracks_retry_raises samples.quote_plain samples.always_500
           samples.main_node "abc" H).
Defined.

(** Evaluations of [get_tracks] on the sample servers. *)
Example get_tracks_third_is_empty :
  get_tracks samples.quote_plain samples.asyncio_imported samples.third_is_empty
             samples.main_node "abc" =
    (let req := loadtracks_request samples.quote_plain samples.main_node "abc" in
     [Get req; Sleep 200; Get req; Sleep 200; Get req], inr RNone).
Proof. reflexivity. Qed.

Example get_tracks_empty_playlist :
  snd (get_tracks samples.quote_plain samples.asyncio_missing
                  samples.empty_playlist_server samples.main_node "abc") = inr RNone.
Proof. reflexivity. Qed.

Example get_tracks_tracks_not_a_list :
  snd (get_tracks samples.quote_plain samples.asyncio_missing
                  samples.odd_server samples.main_node "abc") =
    inl (KeyError "playlistInfo").
Proof. reflexivity. Qed.

Example get_tracks_without_asyncio :
  get_tracks samples.quote_plain samples.asyncio_missing samples.always_500
             samples.main_node "abc" =
    ([Get (loadtracks_request samples.quote_plain samples.main_node "abc")],
     inl (NameError "asyncio")).
Proof. reflexivity. Qed.

(** C6, as stated: a 200 answer with a [playlistInfo] that is not [null]
    gives a [TrackPlaylist]. It fails for the answer to a plain search, whose
    [playlistInfo] is the empty object: the raw list of tracks is returned. *)
Lemma playlist_info_not_null_counterexample :
  ~ (forall (quote : string -> string) (g : module_globals)
            (server : nat -> response) (self : Node) (query : string)
            (d : list (string * json)) (pl : json),
       status (server O) = 200 ->
       body (server O) = JDict d ->
       assoc "playlistInfo" d = Some pl ->
       pl <> JNull ->
       exists p, snd (get_tracks quote g server self query) = inr (RPlaylist p)).
Proof.
  intros H.
  destruct (H samples.quote_plain samples.asyncio_missing samples.search_server
              samples.main_node "abc" _ (JDict []) eq_refl eq_refl eq_refl)
    as [p Hp].
  - discriminate.
  - vm_compute in Hp. discriminate Hp.
Qed.

(** C6, amended. For a 200 answer (the first one, after fewer than five
    other answers) whose decoded body is an object: if its [tracks] entry is
    truthy and its [playlistInfo] entry is truthy (a non-empty object),
    [get_tracks] returns the [TrackPlaylist] built from the body, whatever
    the number of tracks; if the [tracks] entry is missing or falsy it
    returns [None] whatever [playlistInfo] is; and if [playlistInfo] is
    present but falsy ([null] or the empty object) and [tracks] is a
    non-empty list of well-formed entries, it returns the list of tracks. *)
Theorem get_tracks_playlist (quote : string -> string) (g : module_globals)
    (server : nat -> response) (self : Node) (query : string)
    (n : nat) (d : list (string * json)) :
  n = O \/ has_asyncio g = true ->
  (n < 5)%nat ->
  (forall k, (k < n)%nat -> status (server k) <> 200) ->
  status (server n) = 200 ->
  body (server n) = JDict d ->
  (forall pl,
     truthy (default JNull (assoc "tracks" d)) = true ->
     assoc "playlistInfo" d = Some pl -> truthy pl = true ->
     snd (get_tracks quote g server self query) =
       inr (RPlaylist {| data := JDict d |})) /\
  (truthy (default JNull (assoc "tracks" d)) = false ->
   snd (get_tracks quote g server self query) = inr RNone) /\
  (forall pl items l,
     assoc "tracks" d = Some (JList items) -> items <> [] ->
     assoc "playlistInfo" d = Some pl -> truthy pl = false ->
     mapM make_track items = inr l ->
     snd (get_tracks quote g server self query) = inr (RTracks l)).
Proof.
  intros Hg Hn Hk Hok Hd.
  rewrite (get_tracks_first_200 quote g server self query n Hg Hn Hk Hok).
  simpl. rewrite Hd. repeat split.
  - intros pl Ht Hp Hpl. eapply decide_result_playlist; eassumption.
  - apply decide_result_no_tracks.
  - intros pl items l Ht Hne Hp Hpl Hl. eapply decide_result_tracks; eassumption.
Qed.

Lemma get_tracks_playlist_witness :
  status (samples.playlist_server O) = 200 /\
  snd (get_tracks samples.quote_plain samples.asyncio_missing
                  samples.playlist_server samples.main_node "abc") =
    inr (RPlaylist {| data := samples.playlist_body |}).
Proof.
  split; [reflexivity|].
  refine (proj1 (get_tracks_playlist samples.quote_plain samples.asyncio_missing
                   samples.playlist_server samples.main_node "abc" O _
                   (or_introl eq_refl) _ _ eq_refl eq_refl) _ eq_refl eq_refl eq_refl).
  - lia.
  - intros k Hk. lia.
Defined.

(** ** [build_track] *)

Section BuildTrackFacts.

Variable server : nat -> response.
Variable self : Node.
Variable identifier : string.

Lemma build_track_one_request :
  fst (build_track server self identifier) =
    [Get (decodetrack_request self identifier)].
Proof. reflexivity. Qed.

Lemma build_track_200 :
  status (server O) = 200 ->
  snd (build_track server self identifier) =
    inr {| id_ := JStr identifier; info := body (server O) |}.
Proof. intros H. unfold build_track. simpl. rewrite H. reflexivity. Qed.

Lemma build_track_typed_error (d : list (string * json)) (st err : json) :
  status (server O) <> 200 ->
  body (server O) = JDict d ->
  assoc "status" d = Some st ->
  assoc "error" d = Some err ->
  snd (build_track server self identifier) =
    inl (BuildTrackError (build_track_message st err)).
Proof.
  intros H Hd Hs He. apply Z.eqb_neq in H.
  unfold build_track. simpl. rewrite H, Hd. simpl. rewrite Hs, He. reflexivity.
Qed.

Lemma build_track_key_error (d : list (string * json)) :
  status (server O) <> 200 ->
  body (server O) = JDict d ->
  assoc "status" d = None \/ assoc "error" d = None ->
  snd (build_track server self identifier) =
    inl (KeyError (match assoc "status" d with
                   | Some _ => "error"
                   | None => "status"
                   end)).
Proof.
  intros H Hd Hk. apply Z.eqb_neq in H.
  unfold build_track. simpl. rewrite H, Hd. simpl.
  destruct (assoc "status" d) as [st|]; simpl; [|reflexivity].
  destruct Hk as [Hk|Hk]; [discriminate|]. rewrite Hk. reflexivity.
Qed.

Lemma build_track_typed_error_inv (m : list fragment) :
  snd (build_track server self identifier) = inl (BuildTrackError m) ->
  status (server O) <> 200 /\
  exists d st err,
    body (server O) = JDict d /\ assoc "status" d = Some st /\
    assoc "error" d = Some err /\ m = build_track_message st err.
Proof.
  unfold build_track. simpl.
  destruct (status (server O) =? 200) eqn:H; simpl; [discriminate|].
  apply Z.eqb_neq in H. intros Hm. split; [exact H|].
  destruct (body (server O)) as [| | | | | |d]; simpl in Hm; try discriminate.
  destruct (assoc "status" d) as [st|] eqn:Hs; simpl in Hm; [|discriminate].
  destruct (assoc "error" d) as [err|] eqn:He; simpl in Hm; [|discriminate].
  exists d, st, err. unfold raise in Hm. injection Hm as <-.
  repeat split; assumption.
Qed.

End BuildTrackFacts.

Example build_track_decode_ok :
  build_track samples.decode_ok samples.main_node "QAAAjQIAJVJpY2s" =
    ([Get (decodetrack_request samples.main_node "QAAAjQIAJVJpY2s")],
     inr {| id_ := JStr "QAAAjQIAJVJpY2s";
            info := JDict [("title", JStr "Never Gonna Give You Up")] |}).
Proof. reflexivity. Qed.

Example build_track_decode_failed :
  snd (build_track samples.decode_failed samples.main_node "QAAA") =
    inl (BuildTrackError
           [Lit "Failed to build track. Status: "; Fmt (JInt 500);
            Lit ", Error: "; Fmt (JStr "Internal Server Error");
            Lit ".Check the identfier is correct and try again."]).
Proof. reflexivity. Qed.

(** C7, as stated: every answer other than 200 makes [build_track] raise
    [BuildTrackError]. It fails for a 404 answer whose body has no "status"
    entry: building the message raises [KeyError]. *)
Lemma build_track_any_error_counterexample :
  ~ (forall (server : nat -> response) (self : Node) (identifier : string),
       status (server O) <> 200 ->
       exists m, snd (build_track server self identifier) = inl (BuildTrackError m)).
Proof.
  intros H.
  destruct (H samples.decode_not_found samples.main_node "QAAA") as [m Hm].
  - simpl. discriminate.
  - vm_compute in Hm. discriminate Hm.
Qed.

(** C7, amended. [build_track] sends exactly one request, whatever the
    answer (no retry). On a 200 answer it returns a [Track] whose identifier
    is the input identifier and whose info is the decoded body. On any other
    answer whose decoded body is an object with both a "status" and an
    "error" entry it raises [BuildTrackError] with a message made of these
    two values. *)
Theorem build_track_outcomes (server : nat -> response) (self : Node)
    (identifier : string) :
  fst (build_track server self identifier) =
    [Get (decodetrack_request self identifier)] /\
  (status (server O) = 200 ->
   snd (build_track server self identifier) =
     inr {| id_ := JStr identifier; info := body (server O) |}) /\
  (forall d st err,
     status (server O) <> 200 ->
     body (server O) = JDict d ->
     assoc "status" d = Some st ->
     assoc "error" d = Some err ->
     snd (build_track server self identifier) =
       inl (BuildTrackError
              [Lit "Failed to build track. Status: "; Fmt st;
               Lit ", Error: "; Fmt err;
               Lit ".Check the identfier is correct and try again."])).
Proof.
  split; [apply build_track_one_request|]. split.
  - apply build_track_200.
  - intros d st err. apply build_track_typed_error.
Qed.

(** C10. On an answer other than 200 whose decoded body is an object
    without a "status" entry or without an "error" entry, [build_track]
    raises [KeyError] (for "status" if that is missing, for "error"
    otherwise), not [BuildTrackError]; and whenever [build_track] raises
    [BuildTrackError], the body is an object that has both entries. *)
Theorem build_track_missing_key (server : nat -> response) (self : Node)
    (identifier : string) :
  status (server O) <> 200 ->
  (forall d,
     body (server O) = JDict d ->
     assoc "status" d = None \/ assoc "error" d = None ->
     exists k, (k = "status" \/ k = "error") /\
       snd (build_track server self identifier) = inl (KeyError k)) /\
  (forall m,
     snd (build_track server self identifier) = inl (BuildTrackError m) ->
     exists d st err,
       body (server O) = JDict d /\ assoc "status" d = Some st /\
       assoc "error" d = Some err).
Proof.
  intros H. split.
  - intros d Hd Hk.
    exists (match assoc "status" d with Some _ => "error" | None => "status" end).
    split.
    + destruct (assoc "status" d); [right | left]; reflexivity.
    + apply build_track_key_error; assumption.
  - intros m Hm.
    destruct (build_track_typed_error_inv server self identifier m Hm)
      as (_ & d & st & err & Hd & Hs & He & _).
    exists d, st, err. repeat split; assumption.
Qed.

Lemma build_track_missing_key_witness :
  status (samples.decode_not_found O) <> 200 /\
  snd (build_track samples.decode_not_found samples.main_node "QAAA") =
    inl (KeyError "status").
Proof.
  assert (H : status (samples.decode_not_found O) <> 200) by (simpl; discriminate).
  split; [exact H|].
  destruct (proj1 (build_track_missing_key samples.decode_not_found
                     samples.main_node "QAAA" H)
              [("message", JStr "Not Found")] eq_refl (or_introl eq_refl))
    as [k [_ Hk]].
  rewrite Hk. vm_compute in Hk. symmetry. exact Hk.
Defined.

(** ** Event dispatch *)

Section DispatchFacts.

Variable self : Node.
Variable event : Event.

Lemma on_event_no_player (log : list entry) :
  event_player event = None ->
  on_event self event log =
    match hook self with
    | None => (log, inr tt)
    | Some h =>
        if c_iscoroutinefunction h then await_call h event log
        else sync_call h event log
    end.
Proof. intros H. unfold on_event. rewrite H. reflexivity. Qed.

(** With hooks that only append, the log shows the invocation order:
    the entry of the player's hook and its lines come first, the entry of
    the node hook and its lines after them. *)
Lemma on_event_log_order (log : list entry) (p : Player) (h : callable) :
  event_player event = Some p ->
  hook self = Some h ->
  appends (player_hook p) -> appends h ->
  snd (await_call (player_hook p) event log) = inr tt ->
  exists lines1 lines2,
    fst (on_event self event log) =
      (log ++ Awaited (c_name (player_hook p)) (event_str event) :: lines1
           ++ (if c_iscoroutinefunction h then Awaited else Called)
                (c_name h) (event_str event) :: lines2)%list.
Proof.
  intros Hp Hh Ap Ah Hr. unfold on_event. rewrite Hp, Hh.
  unfold await_call in *.
  destruct (Ap (event_str event)
              (log ++ [Awaited (c_name (player_hook p)) (event_str event)])%list)
    as [l1 Hl1].
  destruct (c_body (player_hook p) (event_str event) _) as [log1 r1].
  simpl in Hr, Hl1. subst r1 log1.
  unfold sync_call, await_call.
  destruct (c_iscoroutinefunction h).
  - destruct (Ah (event_str event)
                (((log ++ [Awaited (c_name (player_hook p)) (event_str event)])
                    ++ l1) ++ [Awaited (c_name h) (event_str event)])%list)
      as [l2 Hl2].
    exists l1, l2. rewrite Hl2.
    repeat rewrite <- List.app_assoc. reflexivity.
  - destruct (Ah (event_str event)
                (((log ++ [Awaited (c_name (player_hook p)) (event_str event)])
                    ++ l1) ++ [Called (c_name h) (event_str event)])%list)
      as [l2 Hl2].
    exists l1, l2. rewrite Hl2.
    repeat rewrite <- List.app_assoc. reflexivity.
Qed.

End DispatchFacts.

Example on_event_async_hook :
  on_event (samples.node_with_hook (samples.writer "node_hook" true "node"))
           samples.track_start [] =
    ([Awaited "Player.hook" "TrackStart"; Note "player";
      Awaited "node_hook" "TrackStart"; Note "node"], inr tt).
Proof. reflexivity. Qed.

Example on_event_sync_hook :
  on_event (samples.node_with_hook (samples.writer "node_hook" false "node"))
           samples.track_start [] =
    ([Awaited "Player.hook" "TrackStart"; Note "player";
      Called "node_hook" "TrackStart"; Note "node"], inr tt).
Proof. reflexivity. Qed.

Example on_event_no_hook :
  on_event samples.main_node samples.track_start [] =
    ([Awaited "Player.hook" "TrackStart"; Note "player"], inr tt).
Proof. reflexivity. Qed.

Example on_event_player_hook_raises :
  on_event (samples.node_with_hook (samples.writer "node_hook" true "node"))
           {| event_str := "TrackEnd";
              event_player := Some {| guild_id := 1;
                                      player_hook := samples.failing "Player.hook" |} |}
           [] =
    ([Awaited "Player.hook" "TrackEnd"], inl (OtherError "hook failed")).
Proof. reflexivity. Qed.

(** C8. [on_event] first runs the player stage: if the event carries a
    player, the player's hook is awaited on the log as it stands; otherwise
    nothing happens. If that stage raises, the error propagates. Otherwise
    the node stage starts from the log the player stage left: with no node
    hook set, [on_event] returns normally; with a hook that is a coroutine
    function the hook is awaited, and with any other hook it is called
    synchronously. So the player's hook has run to its end before the node
    hook is invoked. *)
Theorem on_event_dispatch (self : Node) (event : Event) (log : list entry) :
  let ev := event_str event in
  let stage1 :=
    match event_player event with
    | Some p =>
        c_body (player_hook p) ev (log ++ [Awaited (c_name (player_hook p)) ev])%list
    | None => (log, inr tt)
    end in
  match snd stage1 with
  | inl e => on_event self event log = (fst stage1, inl e)
  | inr _ =>
      match hook self with
      | None => on_event self event log = (fst stage1, inr tt)
      | Some h =>
          on_event self event log =
            c_body h ev
              (fst stage1 ++
               [(if c_iscoroutinefunction h then Awaited else Called) (c_name h) ev])%list
      end
  end.
Proof.
  intros ev stage1. unfold on_event, await_call, sync_call.
  fold ev. subst stage1.
  destruct (event_player event) as [p|]; simpl.
  - destruct (c_body (player_hook p) ev _) as [log1 [e|u]]; simpl.
    + reflexivity.
    + destruct (hook self) as [h|]; [|reflexivity].
      destruct (c_iscoroutinefunction h); reflexivity.
  - destruct (hook self) as [h|]; [|reflexivity].
    destruct (c_iscoroutinefunction h); reflexivity.
Qed.

(** ** Teardown *)

Section DestroyFacts.

Variable Player_destroy : Player -> World -> World * result unit.

Lemma destroy_each_app (l1 l2 : list (Z * Player)) (w w' : World)
    (calls : list Z) :
  destroy_each Player_destroy l1 w = (calls, (w', inr tt)) ->
  destroy_each Player_destroy (l1 ++ l2) w =
    ((calls ++ fst (destroy_each Player_destroy l2 w'))%list,
     snd (destroy_each Player_destroy l2 w')).
Proof.
  revert w calls. induction l1 as [|[k p] l1 IH]; intros w calls H.
  - simpl in H. injection H as <- <-. simpl.
    destruct (destroy_each Player_destroy l2 w). reflexivity.
  - simpl in H. simpl.
    destruct (Player_destroy p w) as [w1 [e|u]]; [discriminate|].
    destruct (destroy_each Player_destroy l1 w1) as [c [w2 r]] eqn:Hd.
    injection H as <- <- ->.
    rewrite (IH w1 c Hd). reflexivity.
Qed.

(** When no [destroy] raises, every player of the snapshot is visited,
    in order, whatever the calls do to the node. *)
Lemma destroy_each_all (snapshot : list (Z * Player)) (w : World) :
  (forall p w0, snd (Player_destroy p w0) = inr tt) ->
  fst (destroy_each Player_destroy snapshot w) = map fst snapshot /\
  snd (snd (destroy_each Player_destroy snapshot w)) = inr tt.
Proof.
  intros Hok. revert w. induction snapshot as [|[k p] rest IH]; intros w.
  - split; reflexivity.
  - simpl. specialize (Hok p w).
    destruct (Player_destroy p w) as [w1 r]. simpl in Hok. subst r.
    specialize (IH w1).
    destruct (destroy_each Player_destroy rest w1) as [c out].
    simpl in *. destruct IH as [-> ->]. split; reflexivity.
Qed.

(** The first [destroy] that raises ends the loop. *)
Lemma destroy_each_stops (before rest : list (Z * Player)) (k : Z)
    (p : Player) (w w' w'' : World) (e : exn) :
  destroy_each Player_destroy before w = (map fst before, (w', inr tt)) ->
  Player_destroy p w' = (w'', inl e) ->
  destroy_each Player_destroy (before ++ (k, p) :: rest) w =
    ((map fst before ++ [k])%list, (w'', inl e)).
Proof.
  intros Hb Hp. rewrite (destroy_each_app _ _ _ _ _ Hb).
  simpl. rewrite Hp. reflexivity.
Qed.

(** Cancelling the task touches the websocket only and never raises. *)
Lemma cancel_task_frame (n : Node) (ws : option WebSocket) :
  set_websocket ws (cancel_task n) = set_websocket ws n.
Proof.
  unfold cancel_task. destruct (_websocket n) as [s|]; [|reflexivity].
  destruct (_task s) as [t|]; [|reflexivity].
  destruct (cancel t) as [t' [e|u]]; reflexivity.
Qed.

Lemma cancel_task_identifier (n : Node) :
  identifier (cancel_task n) = identifier n.
Proof.
  change (identifier (cancel_task n))
    with (identifier (set_websocket None (cancel_task n))).
  rewrite cancel_task_frame. reflexivity.
Qed.

Lemma cancel_task_raising (n : Node) (ws : WebSocket) (t : Task) (e : exn) :
  _websocket n = Some ws -> _task ws = Some t -> cancel_raises t = Some e ->
  cancel_task n = n.
Proof.
  intros Hw Ht He. unfold cancel_task, cancel. rewrite Hw, Ht, He. reflexivity.
Qed.

Lemma cancel_task_requested (n : Node) (ws : WebSocket) (t : Task) :
  _websocket n = Some ws -> _task ws = Some t -> cancel_raises t = None ->
  _websocket (cancel_task n) =
    Some {| is_connected := is_connected ws;
            _task := Some {| cancel_raises := None; cancel_requested := true |} |}.
Proof.
  intros Hw Ht He. unfold cancel_task, cancel. rewrite Hw, Ht, He. reflexivity.
Qed.

Lemma del_node_registered (w : World) (h : nat) :
  client_nodes w !! identifier (self_node w) = Some h ->
  del_node w =
    (with_nodes (delete (identifier (self_node w)) (client_nodes w)) w, inr tt).
Proof. intros H. unfold del_node. rewrite H. reflexivity. Qed.

End DestroyFacts.

Example destroy_three_players :
  destroy samples.destroy_ok samples.three_players =
    ([1; 2; 3],
     ({| self_node := samples.main_node; client_nodes := ∅ |}, inr tt)).
Proof. vm_compute. reflexivity. Qed.

Example destroy_stops_at_second :
  fst (destroy samples.destroy_second_raises samples.three_players) = [1; 2] /\
  snd (snd (destroy samples.destroy_second_raises samples.three_players)) =
    inl (OtherError "destroy failed") /\
  client_nodes (fst (snd (destroy samples.destroy_second_raises
                                  samples.three_players))) !! "MAIN" = Some O /\
  map fst (players (self_node (fst (snd (destroy samples.destroy_second_raises
                                                 samples.three_players))))) = [2; 3].
Proof. repeat split; vm_compute; reflexivity. Qed.

(** C3, as stated: [destroy()] calls [destroy] on every owned player even
    if an earlier one raises, and removes the node from the registry. It
    fails for a node with three players of which the second raises: the
    third is never visited and the node stays registered. *)
Lemma destroy_isolation_counterexample :
  ~ (forall (Player_destroy : Player -> World -> World * result unit)
            (w : World) (h : nat),
       client_nodes w !! identifier (self_node w) = Some h ->
       fst (destroy Player_destroy w) = map fst (players (self_node w)) /\
       client_nodes (fst (snd (destroy Player_destroy w)))
         !! identifier (self_node w) = None).
Proof.
  intros H.
  destruct (H samples.destroy_second_raises samples.three_players O) as [Hc _].
  - vm_compute. reflexivity.
  - vm_compute in Hc. discriminate Hc.
Qed.

Example destroy_two_players :
  destroy samples.destroy_second_raises samples.two_players =
    ([1; 3], ({| self_node := samples.main_node; client_nodes := ∅ |}, inr tt)).
Proof. vm_compute. reflexivity. Qed.

Section RunFacts.

Variable Player_destroy : Player -> World -> World * result unit.

(** A run in which every call returns visits the whole snapshot. *)
Lemma destroy_each_returns (snapshot : list (Z * Player)) (w w1 : World) :
  returns_all Player_destroy snapshot w w1 ->
  destroy_each Player_destroy snapshot w = (map fst snapshot, (w1, inr tt)).
Proof.
  intros H. induction H as [w|k p rest w w' w1 Hp Hrest IH].
  - reflexivity.
  - simpl. rewrite Hp, IH. reflexivity.
Qed.

(** Every run is of one of two kinds: all calls return, or some call is
    the first to raise. *)
Lemma returns_all_or_raises (snapshot : list (Z * Player)) (w : World) :
  (exists w1, returns_all Player_destroy snapshot w w1) \/
  (exists before k p rest w' w'' e,
     snapshot = (before ++ (k, p) :: rest)%list /\
     returns_all Player_destroy before w w' /\
     Player_destroy p w' = (w'', inl e)).
Proof.
  revert w. induction snapshot as [|[k p] rest IH]; intros w.
  - left. exists w. constructor.
  - destruct (Player_destroy p w) as [w' [e|[]]] eqn:Hp.
    + right. exists [], k, p, rest, w, w', e.
      split; [reflexivity|]. split; [constructor | exact Hp].
    + destruct (IH w') as [[w1 H1]|(before & k' & p' & rest' & wa & wb & e & -> & Hb & He)].
      * left. exists w1. econstructor; eassumption.
      * right. exists ((k, p) :: before), k', p', rest', wa, wb, e.
        split; [reflexivity|]. split; [|exact He].
        econstructor; eassumption.
Qed.

End RunFacts.

(** C3, amended. [destroy()] walks a copy of the players mapping taken
    before the first call. If no player's [destroy] raises in the run, it
    calls [destroy] on every player of that copy, once each and in order,
    whatever the calls do to the node's own mapping; it then cancels the
    receive task, any error of the cancellation being suppressed, and
    deletes the node's entry from the client's registry, which succeeds when
    the entry is there. If a player's [destroy] raises, [destroy()] stops at
    that player and the error propagates: the players after it are not
    visited and [destroy()] itself removes nothing from the registry. Every
    run is of one of these two kinds. *)
Theorem destroy_cascade
    (Player_destroy : Player -> World -> World * result unit) (w : World) :
  (forall w1,
     returns_all Player_destroy (players (self_node w)) w w1 ->
     fst (destroy Player_destroy w) = map fst (players (self_node w)) /\
     forall h,
       client_nodes w1 !! identifier (self_node w1) = Some h ->
       snd (snd (destroy Player_destroy w)) = inr tt /\
       client_nodes (fst (snd (destroy Player_destroy w))) =
         delete (identifier (self_node w1)) (client_nodes w1)) /\
  (forall before k p rest w' w'' e,
     players (self_node w) = (before ++ (k, p) :: rest)%list ->
     returns_all Player_destroy before w w' ->
     Player_destroy p w' = (w'', inl e) ->
     destroy Player_destroy w = ((map fst before ++ [k])%list, (w'', inl e))) /\
  ((exists w1, returns_all Player_destroy (players (self_node w)) w w1) \/
   (exists before k p rest w' w'' e,
      players (self_node w) = (before ++ (k, p) :: rest)%list /\
      returns_all Player_destroy before w w' /\
      Player_destroy p w' = (w'', inl e))).
Proof.
  split; [|split].
  - intros w1 Hrun. unfold destroy.
    rewrite (destroy_each_returns Player_destroy _ _ _ Hrun).
    split; [reflexivity|].
    intros h Hreg.
    rewrite (del_node_registered (with_node (cancel_task (self_node w1)) w1) h).
    + simpl. rewrite cancel_task_identifier. split; reflexivity.
    + simpl. rewrite cancel_task_identifier. exact Hreg.
  - intros before k p rest w' w'' e Hps Hb Hp. unfold destroy.
    rewrite Hps.
    rewrite (destroy_each_stops Player_destroy before rest k p w w' w'' e
               (destroy_each_returns Player_destroy _ _ _ Hb) Hp).
    reflexivity.
  - apply returns_all_or_raises.
Qed.

(** ** Further properties of wavelink/meta.py: the listener table *)

Section ScanFacts.

Lemma handlers_register (name : string) (m : gmap string (list string))
    (l E : string) :
  handlers (register name m l) E =
    (handlers m E ++ (if decide (E = l) then [name] else []))%list.
Proof.
  unfold handlers, register.
  destruct (m !! l) as [names|] eqn:Hl.
  - destruct (decide (E = l)) as [->|Hne].
    + rewrite lookup_insert_eq, Hl. reflexivity.
    + rewrite lookup_insert_ne by congruence. rewrite List.app_nil_r. reflexivity.
  - destruct (decide (E = l)) as [->|Hne].
    + rewrite lookup_insert_eq, Hl. reflexivity.
    + rewrite lookup_insert_ne by congruence. rewrite List.app_nil_r. reflexivity.
Qed.

Lemma in_handlers_register_all (name : string) (ls : list string)
    (m : gmap string (list string)) (E x : string) :
  In x (handlers (foldl (register name) m ls) E) <->
  In x (handlers m E) \/ (x = name /\ In E ls).
Proof.
  revert m. induction ls as [|l ls IH]; intros m; simpl.
  - tauto.
  - rewrite IH, handlers_register, in_app_iff.
    destruct (decide (E = l)) as [->|Hne]; simpl.
    + intuition congruence.
    + intuition congruence.
Qed.

Lemma in_handlers_scan_element (m : gmap string (list string))
    (mem : string * member) (E x : string) :
  In x (handlers (scan_element m mem) E) <->
  In x (handlers m E) \/
  exists f ls, snd mem = MFunction f /\ __wavelink_listeners__ f = Some ls /\
               __name__ f = x /\ In E ls.
Proof.
  unfold scan_element. destruct (snd mem) as [f|].
  - destruct (__wavelink_listeners__ f) as [ls|] eqn:Hls.
    + rewrite in_handlers_register_all. split.
      * intros [H|[-> H]]; [left; exact H|]. right. exists f, ls. auto.
      * intros [H|(f' & ls' & Hf & Hl & Hn & HE)]; [left; exact H|].
        injection Hf as <-. rewrite Hls in Hl. injection Hl as <-. auto.
    + split; [auto|]. intros [H|(f' & ls' & Hf & Hl & _)]; [exact H|].
      injection Hf as <-. congruence.
  - split; [auto|]. intros [H|(f' & ls' & Hf & _)]; [exact H|]. discriminate.
Qed.

Lemma in_handlers_scan_all (mems : list (string * member))
    (m : gmap string (list string)) (E x : string) :
  In x (handlers (foldl scan_element m mems) E) <->
  In x (handlers m E) \/
  exists mem f ls, In mem mems /\ snd mem = MFunction f /\
                   __wavelink_listeners__ f = Some ls /\
                   __name__ f = x /\ In E ls.
Proof.
  revert m. induction mems as [|mem mems IH]; intros m; simpl.
  - split; [auto|]. intros [H|(mem & f & ls & [] & _)]. exact H.
  - rewrite IH, in_handlers_scan_element. split.
    + intros [[H|(f & ls & H)]|(mem' & f & ls & Hin & H)].
      * left. exact H.
      * right. exists mem, f, ls. tauto.
      * right. exists mem', f, ls. tauto.
    + intros [H|(mem' & f & ls & [<-|Hin] & H)].
      * left. left. exact H.
      * left. right. exists f, ls. exact H.
      * right. exists mem', f, ls. tauto.
Qed.

Lemma register_no_empty_list (name : string) (m : gmap string (list string))
    (l : string) :
  no_empty_list m -> no_empty_list (register name m l).
Proof.
  intros Hm E l0. unfold register.
  destruct (m !! l) as [names|];
    (destruct (decide (l = E)) as [->|Hne];
     [rewrite lookup_insert_eq; intros [= <-]
     |rewrite lookup_insert_ne by exact Hne; apply Hm]).
  - destruct names; discriminate.
  - discriminate.
Qed.

Lemma scan_element_no_empty_list (m : gmap string (list string))
    (mem : string * member) :
  no_empty_list m -> no_empty_list (scan_element m mem).
Proof.
  unfold scan_element. destruct (snd mem) as [f|]; [|auto].
  destruct (__wavelink_listeners__ f) as [ls|]; [|auto].
  revert m. induction ls as [|l ls IH]; intros m Hm; simpl; [exact Hm|].
  apply IH. apply register_no_empty_list. exact Hm.
Qed.

Lemma scan_no_empty_list (cls : class_obj) : no_empty_list (scan cls).
Proof.
  rewrite scan_members.
  assert (H : no_empty_list (∅ : gmap string (list string))).
  { intros E l. rewrite lookup_empty. discriminate. }
  revert H. generalize (∅ : gmap string (list string)).
  induction (cls_members cls) as [|mem mems IH]; intros m Hm; simpl; [exact Hm|].
  apply IH. apply scan_element_no_empty_list. exact Hm.
Qed.

Lemma scan_lists_marked (cls : class_obj) (E name : string) :
  In name (handlers (scan cls) E) <-> marked_for cls E name.
Proof.
  rewrite scan_members, in_handlers_scan_all. unfold marked_for, handlers.
  rewrite lookup_empty. simpl. split.
  - intros [[]|H]. exact H.
  - intros H. right. exact H.
Qed.

End ScanFacts.

(** X1. The table an instantiation stores lists a name under an event
    exactly when some member of the class is a function of that name whose
    marker list contains the event: several markers on one method and
    several methods for one event are all collected, and nothing else is. *)
Theorem new_table_lists_marked (cls : class_obj) :
  exists t, cls_listeners (snd (__new__ cls)) = Some t /\
    forall E name, In name (handlers t E) <-> marked_for cls E name.
Proof.
  exists (scan cls). split; [reflexivity|]. apply scan_lists_marked.
Qed.

(** X2. In the stored table an event is a key exactly when some member is
    marked for it, and no key maps to an empty list. *)
Theorem new_table_keys (cls : class_obj) :
  exists t, cls_listeners (snd (__new__ cls)) = Some t /\
    forall E,
      (is_Some (t !! E) <-> exists name, marked_for cls E name) /\
      (forall l, t !! E = Some l -> l <> []).
Proof.
  exists (scan cls). split; [reflexivity|]. intros E. split.
  - split.
    + intros [l Hl]. pose proof (scan_no_empty_list cls E l Hl) as Hne.
      destruct l as [|name l]; [contradiction|].
      exists name. apply scan_lists_marked. unfold handlers. rewrite Hl.
      left. reflexivity.
    + intros [name H]. apply scan_lists_marked in H. unfold handlers in H.
      destruct (scan cls !! E) as [l|]; [eauto|destruct H].
  - apply scan_no_empty_list.
Qed.

(** X3. On a coroutine function that already has the attribute, two
    applications of the marker both return the function and accumulate: the
    names registered before are kept and the two new names follow them in
    the order of application; the function's name and kind are unchanged. *)
Theorem markers_accumulate (e1 e2 : option string) (f : function)
    (ls : list string) :
  iscoroutinefunction f = true ->
  __wavelink_listeners__ f = Some ls ->
  snd (listener e1 f) = inr tt /\
  snd (listener e2 (fst (listener e1 f))) = inr tt /\
  __wavelink_listeners__ (fst (listener e2 (fst (listener e1 f)))) =
    Some (ls ++ [event_or_name e1 f; event_or_name e2 f])%list /\
  __name__ (fst (listener e2 (fst (listener e1 f)))) = __name__ f /\
  iscoroutinefunction (fst (listener e2 (fst (listener e1 f)))) = true.
Proof.
  intros Hco Hls. unfold listener.
  rewrite (wrapper_appends e1 f ls Hco Hls). simpl.
  rewrite (wrapper_appends e2 (set_listeners (ls ++ [event_or_name e1 f]) f)
             (ls ++ [event_or_name e1 f]) Hco eq_refl).
  simpl. rewrite <- List.app_assoc. simpl.
  destruct e2 as [e|]; [destruct (String.eqb e "")|]; auto.
Qed.

Lemma markers_accumulate_witness :
  __wavelink_listeners__
    (fst (listener (Some "on_track_end")
            (fst (listener None samples.marked_ready)))) =
    Some ["on_node_ready"; "node_ready_event"; "on_track_end"].
Proof.
  exact (proj1 (proj2 (proj2
           (markers_accumulate None (Some "on_track_end") samples.marked_ready
              ["on_node_ready"] eq_refl eq_refl)))).
Defined.

(** X4. A method that carried the attribute when it was marked is listed by
    the table of every class that has it as a member: under the event of the
    marker (its own name when no event or an empty one was given) and under
    every event it was registered for before. *)
Theorem marked_method_is_listed (event : option string) (f : function)
    (ls : list string) (cls : class_obj) (mname : string) :
  iscoroutinefunction f = true ->
  __wavelink_listeners__ f = Some ls ->
  In (mname, MFunction (fst (listener event f))) (cls_members cls) ->
  exists t, cls_listeners (snd (__new__ cls)) = Some t /\
    In (__name__ f) (handlers t (event_or_name event f)) /\
    forall E, In E ls -> In (__name__ f) (handlers t E).
Proof.
  intros Hco Hls Hin. exists (scan cls). split; [reflexivity|].
  assert (Hall : forall E, In E (ls ++ [event_or_name event f])%list ->
                           In (__name__ f) (handlers (scan cls) E)).
  { intros E HE. apply scan_lists_marked.
    exists (mname, MFunction (fst (listener event f))),
           (fst (listener event f)), (ls ++ [event_or_name event f])%list.
    unfold listener in *. rewrite (wrapper_appends event f ls Hco Hls) in *.
    simpl in *. repeat split; auto. }
  split.
  - apply Hall. apply in_or_app. right. left. reflexivity.
  - intros E HE. apply Hall. apply in_or_app. left. exact HE.
Qed.

Lemma marked_method_is_listed_witness :
  exists t,
    cls_listeners
      (snd (__new__
              {| cls_members :=
                   [("node_ready_event",
                     MFunction (fst (listener (Some "on_track_end")
                                              samples.marked_ready)))];
                 cls_listeners := None |})) = Some t /\
    In "node_ready_event" (handlers t "on_track_end") /\
    In "node_ready_event" (handlers t "on_node_ready").
Proof.
  destruct (marked_method_is_listed (Some "on_track_end") samples.marked_ready
              ["on_node_ready"]
              {| cls_members :=
                   [("node_ready_event",
                     MFunction (fst (listener (Some "on_track_end")
                                              samples.marked_ready)))];
                 cls_listeners := None |}
              "node_ready_event" eq_refl eq_refl (or_introl eq_refl))
    as (t & Ht & H1 & H2).
  exists t. split; [exact Ht|]. split; [exact H1|].
  apply H2. left. reflexivity.
Defined.

(** ** Further properties of wavelink/node.py: node state *)

Section StateFacts.

Lemma run_ops_websocket (ops : list op) (self : Node) :
  _websocket (run_ops ops self) = _websocket self.
Proof.
  change (_websocket (run_ops ops self))
    with (_websocket (set_available true (set_stats None (run_ops ops self)))).
  rewrite run_ops_frame. reflexivity.
Qed.

Lemma get_player_in_none (ps : list (Z * Player)) (guild : Z) :
  get_player_in ps guild = None <-> ~ In guild (map fst ps).
Proof.
  induction ps as [|[k p] ps IH]; simpl.
  - tauto.
  - destruct (Z.eqb_spec k guild) as [->|Hne].
    + split; [discriminate|]. intros H. exfalso. apply H. left. reflexivity.
    + rewrite IH. tauto.
Qed.

Lemma get_player_in_some (ps : list (Z * Player)) (guild : Z) (p : Player) :
  get_player_in ps guild = Some p -> In (guild, p) ps.
Proof.
  induction ps as [|[k q] ps IH]; simpl; [discriminate|].
  destruct (Z.eqb_spec k guild) as [->|Hne].
  - intros [= ->]. left. reflexivity.
  - intros H. right. apply IH. exact H.
Qed.

End StateFacts.

Lemma run_ops_players (ops : list op) (self : Node) :
  players (run_ops ops self) = players self.
Proof.
  change (players (run_ops ops self))
    with (players (set_available true (set_stats None (run_ops ops self)))).
  rewrite run_ops_frame. reflexivity.
Qed.

Lemma run_ops_no_stats (ops : list op) (self : Node) :
  stats self = None ->
  (forall s, ~ In (StatsUpdate s) ops) ->
  stats (run_ops ops self) = None.
Proof.
  revert self. induction ops as [|o ops IH]; intros self Hs Hno; [exact Hs|].
  unfold run_ops in *. simpl. apply IH.
  - destruct o as [| |s]; simpl; [exact Hs|exact Hs|].
    exfalso. apply (Hno s). left. reflexivity.
  - intros s Hin. apply (Hno s). right. exact Hin.
Qed.

(** X5. A node made by [__init__] and then opened, closed and given stats
    in any order stays unavailable for use (it has no websocket) and has no
    player for any guild; and as long as no stats update is among these
    operations its penalty is the sentinel. *)
Theorem init_node_idle (h : string) (p : Z) (sh u : Z) (ru pw rg idn : string)
    (sid : option Z) (sec : bool) (hb : option float) (ops : list op) :
  let n := run_ops ops (__init__ h p sh u ru pw rg idn sid sec hb) in
  is_available n = false /\
  (forall guild, get_player n guild = None) /\
  ((forall s, ~ In (StatsUpdate s) ops) -> penalty n = 9e30%float).
Proof.
  intros n. subst n. split; [|split].
  - unfold is_available. rewrite run_ops_websocket. reflexivity.
  - intros guild. unfold get_player. rewrite run_ops_players. reflexivity.
  - intros Hno. apply penalty_no_stats. apply run_ops_no_stats; [reflexivity|exact Hno].
Qed.

(** X6. [close()], [open()] and stats updates never touch the websocket, so
    after any sequence of them: once closed the node is not available,
    whatever the connection; once opened it is available exactly when its
    websocket exists and is connected; a stats update changes nothing about
    availability. *)
Theorem is_available_after_ops (ops : list op) (self : Node) :
  _websocket (run_ops ops self) = _websocket self /\
  is_available (run_ops (ops ++ [Close]) self) = false /\
  is_available (run_ops (ops ++ [Open]) self) =
    match _websocket self with
    | Some ws => is_connected ws
    | None => false
    end /\
  (forall s, is_available (run_ops (ops ++ [StatsUpdate s]) self) =
             is_available (run_ops ops self)).
Proof.
  split; [apply run_ops_websocket|].
  unfold is_available. rewrite !run_ops_websocket.
  repeat split.
  - rewrite run_ops_snoc. simpl. destruct (_websocket self) as [ws|]; [|reflexivity].
    apply andb_false_r.
  - rewrite run_ops_snoc. simpl. destruct (_websocket self) as [ws|]; [|reflexivity].
    apply andb_true_r.
  - intros s. rewrite run_ops_websocket, run_ops_snoc. reflexivity.
Qed.

(** X7. [get_player] never raises: it returns [None] exactly when the guild
    is not a key of the players mapping, and a player it returns is the one
    stored under that guild. *)
Theorem get_player_lookup (self : Node) (guild : Z) :
  (get_player self guild = None <-> ~ In guild (map fst (players self))) /\
  (forall p, get_player self guild = Some p -> In (guild, p) (players self)).
Proof.
  split.
  - apply get_player_in_none.
  - intros p. apply get_player_in_some.
Qed.

(** ** Further properties of wavelink/node.py: hooks and dispatch *)

(** X8. [set_hook] rejects an argument that is not callable with
    [WavelinkException] and leaves the node as it was. A callable replaces
    the hook: dispatch on the node then is the dispatch without node hook
    (the player stage), followed, unless that raised, by one invocation of
    the new hook, awaited if it is a coroutine function and called
    synchronously otherwise; the hook set before is not invoked. *)
Theorem set_hook_dispatch (self : Node) (f : callable) (event : Event)
    (log : list entry) :
  set_hook self None =
    (self, inl (WavelinkException "Node hook must be a callable.")) /\
  snd (set_hook self (Some f)) = inr tt /\
  on_event (fst (set_hook self (Some f))) event log =
    match on_event (set_hook_field None self) event log with
    | (log1, inl e) => (log1, inl e)
    | (log1, inr _) =>
        c_body f (event_str event)
          (log1 ++ [(if c_iscoroutinefunction f then Awaited else Called)
                      (c_name f) (event_str event)])%list
    end.
Proof.
  repeat split. unfold on_event, await_call, sync_call. simpl.
  destruct (event_player event) as [p|].
  - destruct (c_body (player_hook p) _ _) as [log1 [e|u]]; [reflexivity|].
    destruct (c_iscoroutinefunction f); reflexivity.
  - destruct (c_iscoroutinefunction f); reflexivity.
Qed.

(** X9. When the hook of the event's player raises, [on_event] ends with
    that error and the log the player's hook left, whatever the node hook
    is: the node hook is not invoked. *)
Theorem player_hook_error_skips_node_hook (self : Node) (h : option callable)
    (event : Event) (log log1 : list entry) (p : Player) (e : exn) :
  event_player event = Some p ->
  await_call (player_hook p) event log = (log1, inl e) ->
  on_event (set_hook_field h self) event log = (log1, inl e).
Proof.
  intros Hp Hr. unfold on_event. rewrite Hp, Hr. reflexivity.
Qed.

Lemma player_hook_error_skips_node_hook_witness :
  on_event (set_hook_field (Some (samples.writer "node_hook" true "node"))
                           samples.main_node)
           {| event_str := "TrackEnd";
              event_player := Some {| guild_id := 1;
                                      player_hook := samples.failing "Player.hook" |} |}
           [] =
    ([Awaited "Player.hook" "TrackEnd"], inl (OtherError "hook failed")).
Proof.
  apply (player_hook_error_skips_node_hook samples.main_node
           (Some (samples.writer "node_hook" true "node")) _ [] _
           {| guild_id := 1; player_hook := samples.failing "Player.hook" |});
    reflexivity.
Defined.

(** X10. When the event has a player, the node has a hook, both hooks only
    append to the log and the player's hook returns, the log shows the order
    of the two invocations: the entry of the awaited player hook and its
    lines come first, then the entry of the node hook (awaited or called)
    and its lines. *)
Theorem on_event_order_in_log (self : Node) (event : Event) (log : list entry)
    (p : Player) (h : callable) :
  event_player event = Some p ->
  hook self = Some h ->
  appends (player_hook p) -> appends h ->
  snd (await_call (player_hook p) event log) = inr tt ->
  exists lines1 lines2,
    fst (on_event self event log) =
      (log ++ Awaited (c_name (player_hook p)) (event_str event) :: lines1
           ++ (if c_iscoroutinefunction h then Awaited else Called)
                (c_name h) (event_str event) :: lines2)%list.
Proof. apply on_event_log_order. Qed.

Lemma on_event_order_in_log_witness :
  exists lines1 lines2,
    fst (on_event (samples.node_with_hook (samples.writer "node_hook" false "node"))
                  samples.track_start []) =
      ([] ++ Awaited "Player.hook" "TrackStart" :: lines1
          ++ Called "node_hook" "TrackStart" :: lines2)%list.
Proof.
  apply (on_event_order_in_log
           (samples.node_with_hook (samples.writer "node_hook" false "node"))
           samples.track_start [] (samples.player_of 1)
           (samples.writer "node_hook" false "node")).
  - reflexivity.
  - reflexivity.
  - intros ev log. exists [Note "player"]. reflexivity.
  - intros ev log. exists [Note "node"]. reflexivity.
  - reflexivity.
Defined.

(** X11. With hooks that only append to the log, [on_event] only appends
    as well: whatever the outcome, the log it leaves starts with the log it
    was given. *)
Theorem on_event_keeps_log (self : Node) (event : Event) (log : list entry) :
  (forall p, event_player event = Some p -> appends (player_hook p)) ->
  (forall h, hook self = Some h -> appends h) ->
  exists lines, fst (on_event self event log) = (log ++ lines)%list.
Proof.
  intros Hp Hh.
  assert (H1 : exists l1 r1,
             match event_player event with
             | Some player => await_call (player_hook player) event log
             | None => (log, mret tt)
             end = ((log ++ l1)%list, r1)).
  { destruct (event_player event) as [p|].
    - unfold await_call.
      destruct (Hp p eq_refl (event_str event)
                  (log ++ [Awaited (c_name (player_hook p)) (event_str event)])%list)
        as [l Hl].
      destruct (c_body (player_hook p) _ _) as [log1 r1]. simpl in Hl. subst log1.
      exists ([Awaited (c_name (player_hook p)) (event_str event)] ++ l)%list, r1.
      rewrite List.app_assoc. reflexivity.
    - exists [], (inr tt). rewrite List.app_nil_r. reflexivity. }
  destruct H1 as (l1 & r1 & H1). unfold on_event. rewrite H1.
  destruct r1 as [e|u]; [exists l1; reflexivity|].
  destruct (hook self) as [h|]; [|exists l1; reflexivity].
  assert (H2 : forall en, exists l2,
             fst (c_body h (event_str event) ((log ++ l1) ++ [en])%list) =
               (log ++ l1 ++ en :: l2)%list).
  { intros en.
    destruct (Hh h eq_refl (event_str event) ((log ++ l1) ++ [en])%list) as [l2 Hl2].
    exists l2. rewrite Hl2. repeat rewrite <- List.app_assoc. reflexivity. }
  unfold await_call, sync_call.
  destruct (c_iscoroutinefunction h).
  - destruct (H2 (Awaited (c_name h) (event_str event))) as [l2 Hl2].
    exists (l1 ++ Awaited (c_name h) (event_str event) :: l2)%list. exact Hl2.
  - destruct (H2 (Called (c_name h) (event_str event))) as [l2 Hl2].
    exists (l1 ++ Called (c_name h) (event_str event) :: l2)%list. exact Hl2.
Qed.

Lemma on_event_keeps_log_witness :
  exists lines,
    fst (on_event (samples.node_with_hook (samples.writer "node_hook" true "node"))
                  samples.track_start [Note "earlier"]) =
      ([Note "earlier"] ++ lines)%list.
Proof.
  apply on_event_keeps_log.
  - intros p [= <-] ev log. exists [Note "player"]. reflexivity.
  - intros h [= <-] ev log. exists [Note "node"]. reflexivity.
Defined.

(** ** Further properties of wavelink/node.py: REST queries *)

Section RetryFacts.

Variable g : module_globals.
Variable server : nat -> response.
Variable req : request.

Lemma retry_loop_trace (r k : nat) (d0 : option json) :
  (gets (fst (retry_loop g server req r k d0)) <= r)%nat /\
  ((0 < r)%nat -> (1 <= gets (fst (retry_loop g server req r k d0)))%nat) /\
  (sleeps (fst (retry_loop g server req r k d0))
     <= gets (fst (retry_loop g server req r k d0)))%nat /\
  List.Forall (fun e => e = Get req \/ e = Sleep 200)
              (fst (retry_loop g server req r k d0)).
Proof.
  revert k d0. induction r as [|r IH]; intros k d0.
  - unfold gets, sleeps. simpl. repeat split; try lia. constructor.
  - simpl. destruct (negb (status (server k) =? 200)).
    + destruct (has_asyncio g).
      * specialize (IH (S k) (Some (body (server k)))).
        destruct (retry_loop g server req r (S k) (Some (body (server k))))
          as [tr out].
        simpl in *. unfold gets, sleeps in *. simpl.
        destruct IH as (H1 & H2 & H3 & H4).
        repeat split; try lia. constructor; [auto|]. constructor; auto.
      * unfold gets, sleeps. simpl. repeat split; try lia.
        constructor; [auto|constructor].
    + unfold gets, sleeps. simpl. repeat split; try lia.
      constructor; [auto|constructor].
Qed.

(** How the loop can end without raising: all [r] answers were other than
    200 and [retries] reached 0, or the answer to request [k + n] was the
    first with status 200. *)
Lemma retry_loop_inv (r k : nat) (d0 : option json) (tr : list io_event)
    (m : nat) (d : option json) :
  retry_loop g server req r k d0 = (tr, inr (m, d)) ->
  (m = O /\ forall j, (k <= j < k + r)%nat -> status (server j) <> 200) \/
  (exists n, (n < r)%nat /\ m = (r - n)%nat /\
     (forall j, (k <= j < k + n)%nat -> status (server j) <> 200) /\
     status (server (k + n)) = 200 /\
     d = Some (body (server (k + n)%nat)) /\
     (n = O \/ has_asyncio g = true)).
Proof.
  revert k d0 tr. induction r as [|r IH]; intros k d0 tr H.
  - simpl in H. injection H as _ <- _. left. split; [reflexivity|]. intros j Hj. lia.
  - simpl in H. destruct (status (server k) =? 200) eqn:Hs; simpl in H.
    + apply Z.eqb_eq in Hs. injection H as _ <- <-. right. exists O.
      rewrite Nat.add_0_r. repeat split; auto; try (intros; lia).
    + apply Z.eqb_neq in Hs. destruct (has_asyncio g) eqn:Hg; [|discriminate].
      destruct (retry_loop g server req r (S k) (Some (body (server k))))
        as [tr' out] eqn:Hl.
      injection H as _ ->.
      destruct (IH _ _ _ Hl) as [[-> Hall]|(n & Hn & -> & Hall & Hok & Hd & _)].
      * left. split; [reflexivity|]. intros j Hj.
        destruct (Nat.eq_dec j k) as [->|Hne]; [exact Hs|]. apply Hall. lia.
      * right. exists (S n).
        replace (k + S n)%nat with (S k + n)%nat by lia.
        repeat split; auto; try lia.
        intros j Hj. destruct (Nat.eq_dec j k) as [->|Hne]; [exact Hs|].
        apply Hall. lia.
Qed.

End RetryFacts.

Section ResultFacts.

Lemma mapM_make_track_inv (items : list json) (l : list Track) :
  mapM make_track items = inr l ->
  Forall2 (fun item t => subscript item "track" = inr (id_ t) /\
                         subscript item "info" = inr (info t)) items l.
Proof.
  revert l. induction items as [|item items IH]; intros l H; cbn [mapM] in H.
  - injection H as <-. constructor.
  - destruct (make_track item) as [e|t] eqn:Ht; [discriminate|].
    destruct (mapM make_track items) as [e|l'] eqn:Hl; [discriminate|].
    injection H as <-. constructor; [|apply IH; reflexivity].
    unfold make_track in Ht.
    destruct (subscript item "track") as [e|i]; simpl in Ht; [discriminate|].
    destruct (subscript item "info") as [e|inf]; simpl in Ht; [discriminate|].
    injection Ht as <-. split; reflexivity.
Qed.

Lemma decide_result_tracks_inv (d : json) (l : list Track) :
  decide_result d = inr (RTracks l) ->
  exists o pl items,
    d = JDict o /\ assoc "tracks" o = Some (JList items) /\ items <> [] /\
    assoc "playlistInfo" o = Some pl /\ truthy pl = false /\
    mapM make_track items = inr l.
Proof.
  unfold decide_result, found_tracks.
  destruct d as [| | | | | |o]; simpl; try discriminate.
  destruct (assoc "tracks" o) as [ts|] eqn:Ht; simpl; [|discriminate].
  destruct (truthy ts) eqn:Hts; [|discriminate].
  destruct (assoc "playlistInfo" o) as [pl|] eqn:Hp; simpl; [|discriminate].
  destruct (truthy pl) eqn:Hpl; [discriminate|].
  destruct ts as [| | | |s|items|kv]; simpl; try discriminate.
  - destruct s as [|c s]; [discriminate|]. simpl. discriminate.
  - destruct (mapM make_track items) as [e|l'] eqn:Hl; simpl; [discriminate|].
    intros [= <-]. exists o, pl, items. repeat split; auto.
    intros ->. discriminate.
  - destruct kv as [|[k v] kv]; [discriminate|]. simpl. discriminate.
Qed.

Lemma decide_result_playlist_inv (d : json) (p : TrackPlaylist) :
  decide_result d = inr (RPlaylist p) ->
  exists o pl,
    d = JDict o /\ data p = d /\
    truthy (default JNull (assoc "tracks" o)) = true /\
    assoc "playlistInfo" o = Some pl /\ truthy pl = true.
Proof.
  unfold decide_result, found_tracks.
  destruct d as [| | | | | |o]; simpl; try discriminate.
  destruct (truthy (default JNull (assoc "tracks" o))) eqn:Hts; [|discriminate].
  destruct (assoc "playlistInfo" o) as [pl|] eqn:Hp; simpl; [|discriminate].
  destruct (truthy pl) eqn:Hpl.
  - intros [= <-]. exists o, pl. repeat split; auto.
  - destruct (assoc "tracks" o) as [ts|]; simpl; [|discriminate].
    destruct (iterate ts) as [e|items]; simpl; [discriminate|].
    destruct (mapM make_track items); simpl; discriminate.
Qed.

End ResultFacts.

Section OutcomeFacts.

Variable quote : string -> string.
Variable g : module_globals.
Variable server : nat -> response.
Variable self : Node.
Variable query : string.

(** Every normal return of [get_tracks] comes from one of two runs. *)
Lemma get_tracks_result_inv (res : search_result) :
  snd (get_tracks quote g server self query) = inr res ->
  (res = RNone /\ has_asyncio g = true /\
   forall k, (k < 5)%nat -> status (server k) <> 200) \/
  (exists n, (n < 5)%nat /\ (n = O \/ has_asyncio g = true) /\
     (forall k, (k < n)%nat -> status (server k) <> 200) /\
     status (server n) = 200 /\
     decide_result (body (server n)) = inr res).
Proof.
  intros H0. pose proof H0 as H. unfold get_tracks in H.
  destruct (retry_loop g server (loadtracks_request quote self query) 5 0 None)
    as [tr out] eqn:Hl.
  simpl in H. destruct out as [e|[m d]]; simpl in H; [discriminate|].
  apply retry_loop_inv in Hl.
  destruct Hl as [[-> Hall]|(n & Hn & -> & Hall & Hok & -> & Hg)].
  - left. simpl in H. injection H as <-. split; [reflexivity|].
    assert (Hk : forall k, (k < 5)%nat -> status (server k) <> 200).
    { intros k Hk. apply Hall. lia. }
    split; [|exact Hk].
    destruct (has_asyncio g) eqn:Hg; [reflexivity|].
    rewrite (get_tracks_asyncio_unbound quote g server self query Hg) in H0.
    + discriminate.
    + apply Hk. lia.
  - right. exists n. simpl in Hok.
    assert (Hk : forall k, (k < n)%nat -> status (server k) <> 200).
    { intros k Hk. apply Hall. lia. }
    rewrite (get_tracks_first_200 quote g server self query n Hg Hn Hk Hok) in H0.
    auto.
Qed.

End OutcomeFacts.

(** X12. Whatever the server answers and whatever the query, [get_tracks]
    sends at least one request and at most five, pauses at most once per
    request, always for 200 ms, and sends the same request each time. *)
Theorem get_tracks_request_bound (quote : string -> string) (g : module_globals)
    (server : nat -> response) (self : Node) (query : string) :
  let tr := fst (get_tracks quote g server self query) in
  (1 <= gets tr <= 5)%nat /\
  (sleeps tr <= gets tr)%nat /\
  List.Forall (fun e => e = Get (loadtracks_request quote self query) \/
                        e = Sleep 200) tr.
Proof.
  intros tr. subst tr. unfold get_tracks.
  pose proof (retry_loop_trace g server (loadtracks_request quote self query)
                5 0 None) as (H1 & H2 & H3 & H4).
  destruct (retry_loop g server (loadtracks_request quote self query) 5 0 None)
    as [tr out].
  simpl in *. repeat split; auto. apply H2. lia.
Qed.

(** X13. A list returned by [get_tracks] is never empty: it has one [Track]
    per entry of the [tracks] list of the first answer with status 200, in
    the order of the entries, each made of the entry's "track" and "info"
    values; and that answer's [playlistInfo] was present but falsy. *)
Theorem get_tracks_list_inv (quote : string -> string) (g : module_globals)
    (server : nat -> response) (self : Node) (query : string) (l : list Track) :
  snd (get_tracks quote g server self query) = inr (RTracks l) ->
  l <> [] /\
  exists n o pl items,
    (n < 5)%nat /\ status (server n) = 200 /\
    (forall k, (k < n)%nat -> status (server k) <> 200) /\
    body (server n) = JDict o /\
    assoc "tracks" o = Some (JList items) /\
    assoc "playlistInfo" o = Some pl /\ truthy pl = false /\
    Forall2 (fun item t => subscript item "track" = inr (id_ t) /\
                           subscript item "info" = inr (info t)) items l.
Proof.
  intros H.
  destruct (get_tracks_result_inv quote g server self query _ H)
    as [[Hres _]|(n & Hn & _ & Hk & Hok & Hd)]; [discriminate|].
  destruct (decide_result_tracks_inv _ _ Hd)
    as (o & pl & items & Hb & Ht & Hne & Hp & Hpl & Hl).
  apply mapM_make_track_inv in Hl. split.
  - intros ->. inversion Hl. subst. contradiction.
  - exists n, o, pl, items. repeat split; auto.
Qed.

Lemma get_tracks_list_inv_witness :
  snd (get_tracks samples.quote_plain samples.asyncio_missing
                  samples.search_server samples.main_node "abc") =
    inr (RTracks [{| id_ := JStr "QAAAjQIAJVJpY2s";
                     info := JDict [("title", JStr "QAAAjQIAJVJpY2s")] |}]) /\
  [{| id_ := JStr "QAAAjQIAJVJpY2s";
      info := JDict [("title", JStr "QAAAjQIAJVJpY2s")] |}] <> [].
Proof.
  split; [reflexivity|].
  exact (proj1 (get_tracks_list_inv samples.quote_plain samples.asyncio_missing
                  samples.search_server samples.main_node "abc" _ eq_refl)).
Defined.

(** X14. A [TrackPlaylist] returned by [get_tracks] is built from the whole
    decoded body of the first answer with status 200, and that body has a
    truthy [tracks] entry and a truthy [playlistInfo] entry. *)
Theorem get_tracks_playlist_inv (quote : string -> string) (g : module_globals)
    (server : nat -> response) (self : Node) (query : string)
    (p : TrackPlaylist) :
  snd (get_tracks quote g server self query) = inr (RPlaylist p) ->
  exists n o pl,
    (n < 5)%nat /\ status (server n) = 200 /\
    (forall k, (k < n)%nat -> status (server k) <> 200) /\
    body (server n) = JDict o /\ data p = JDict o /\
    truthy (default JNull (assoc "tracks" o)) = true /\
    assoc "playlistInfo" o = Some pl /\ truthy pl = true.
Proof.
  intros H.
  destruct (get_tracks_result_inv quote g server self query _ H)
    as [[Hres _]|(n & Hn & _ & Hk & Hok & Hd)]; [discriminate|].
  destruct (decide_result_playlist_inv _ _ Hd) as (o & pl & Hb & Hp & Ht & Hpi & Hpl).
  exists n, o, pl. rewrite Hp. repeat split; auto.
Qed.

Lemma get_tracks_playlist_inv_witness :
  exists n o pl,
    (n < 5)%nat /\ status (samples.playlist_server n) = 200 /\
    (forall k, (k < n)%nat -> status (samples.playlist_server k) <> 200) /\
    body (samples.playlist_server n) = JDict o /\
    samples.playlist_body = JDict o /\
    truthy (default JNull (assoc "tracks" o)) = true /\
    assoc "playlistInfo" o = Some pl /\ truthy pl = true.
Proof.
  exact (get_tracks_playlist_inv samples.quote_plain samples.asyncio_missing
           samples.playlist_server samples.main_node "abc"
           {| data := samples.playlist_body |} eq_refl).
Defined.

(** X15. An answer with status 200 is never retried, whatever its body:
    when the first answer has status 200 there is one request and no pause,
    and a body that is not a JSON object makes the call raise
    [AttributeError] instead of being asked for again. *)
Theorem get_tracks_200_not_retried (quote : string -> string)
    (g : module_globals) (server : nat -> response) (self : Node)
    (query : string) :
  status (server O) = 200 ->
  fst (get_tracks quote g server self query) =
    [Get (loadtracks_request quote self query)] /\
  ((forall o, body (server O) <> JDict o) ->
   snd (get_tracks quote g server self query) = inl (AttributeError "get")).
Proof.
  intros Hok.
  assert (Hk : forall k, (k < 0)%nat -> status (server k) <> 200)
    by (intros k Hk; lia).
  rewrite (get_tracks_first_200 quote g server self query O
             (or_introl eq_refl) ltac:(lia) Hk Hok).
  split; [reflexivity|]. intros Hb. simpl. unfold decide_result.
  destruct (body (server O)) as [| | | | | |o]; try reflexivity.
  exfalso. apply (Hb o). reflexivity.
Qed.

Lemma get_tracks_200_not_retried_witness :
  status (samples.search_server O) = 200 /\
  fst (get_tracks samples.quote_plain samples.asyncio_imported
                  samples.search_server samples.main_node "abc") =
    [Get (loadtracks_request samples.quote_plain samples.main_node "abc")].
Proof.
  split; [reflexivity|].
  exact (proj1 (get_tracks_200_not_retried samples.quote_plain
                  samples.asyncio_imported samples.search_server
                  samples.main_node "abc" eq_refl)).
Defined.

(** X16. [get_tracks] returns [None] in exactly two situations: the first
    five answers all had a status other than 200 (and the pauses between
    them could run), or the first answer with status 200 had an object as
    body whose [tracks] entry is missing or falsy. *)
Theorem get_tracks_none_iff (quote : string -> string) (g : module_globals)
    (server : nat -> response) (self : Node) (query : string) :
  snd (get_tracks quote g server self query) = inr RNone <->
  (has_asyncio g = true /\ forall k, (k < 5)%nat -> status (server k) <> 200) \/
  (exists n o, (n < 5)%nat /\ (n = O \/ has_asyncio g = true) /\
     (forall k, (k < n)%nat -> status (server k) <> 200) /\
     status (server n) = 200 /\ body (server n) = JDict o /\
     truthy (default JNull (assoc "tracks" o)) = false).
Proof.
  split.
  - intros H.
    destruct (get_tracks_result_inv quote g server self query _ H)
      as [(_ & Hg & Hk)|(n & Hn & Hg & Hk & Hok & Hd)].
    + left. auto.
    + right. apply decide_result_none_iff in Hd. destruct Hd as (o & Hb & Ht).
      exists n, o. auto 10.
  - intros [[Hg Hk]|(n & o & Hn & Hg & Hk & Hok & Hb & Ht)].
    + rewrite (get_tracks_exhausted quote g server self query Hg Hk). reflexivity.
    + rewrite (get_tracks_first_200 quote g server self query n Hg Hn Hk Hok).
      simpl. rewrite Hb. apply decide_result_no_tracks. exact Ht.
Qed.

(** X17. If the name [asyncio] is not bound in the module (the file does
    not import it), the first answer with a status other than 200 ends
    [get_tracks] with [NameError] after that single request: nothing is
    retried and [None] is not returned. *)
Theorem get_tracks_needs_asyncio (quote : string -> string) (g : module_globals)
    (server : nat -> response) (self : Node) (query : string) :
  has_asyncio g = false ->
  status (server O) <> 200 ->
  get_tracks quote g server self query =
    ([Get (loadtracks_request quote self query)], inl (NameError "asyncio")).
Proof. apply get_tracks_asyncio_unbound. Qed.

Lemma get_tracks_needs_asyncio_witness :
  get_tracks samples.quote_plain samples.asyncio_missing samples.always_500
             samples.main_node "abc" =
    ([Get (loadtracks_request samples.quote_plain samples.main_node "abc")],
     inl (NameError "asyncio")).
Proof.
  apply get_tracks_needs_asyncio; [reflexivity|]. simpl. discriminate.
Defined.

(** X18. On an answer other than 200 [build_track] never returns a track:
    it raises [BuildTrackError], or [KeyError] for "status" or "error", or,
    when the decoded body is not an object, [TypeError]. *)
Theorem build_track_non_200_raises (server : nat -> response) (self : Node)
    (identifier : string) :
  status (server O) <> 200 ->
  exists e, snd (build_track server self identifier) = inl e /\
    ((exists m, e = BuildTrackError m) \/ e = KeyError "status" \/
     e = KeyError "error" \/ exists msg, e = TypeError msg).
Proof.
  intros H. apply Z.eqb_neq in H. unfold build_track. simpl. rewrite H. simpl.
  destruct (body (server O)) as [| | | | | |o]; simpl;
    try (eexists; split; [reflexivity|]; right; right; right; eexists; reflexivity).
  destruct (assoc "status" o) as [st|]; simpl.
  - destruct (assoc "error" o) as [err|]; simpl.
    + eexists. split; [reflexivity|]. left. eexists. reflexivity.
    + eexists. split; [reflexivity|]. auto.
  - eexists. split; [reflexivity|]. auto.
Qed.

Lemma build_track_non_200_raises_witness :
  exists e, snd (build_track samples.decode_failed samples.main_node "QAAA") = inl e /\
    ((exists m, e = BuildTrackError m) \/ e = KeyError "status" \/
     e = KeyError "error" \/ exists msg, e = TypeError msg).
Proof.
  apply build_track_non_200_raises. simpl. discriminate.
Defined.

(** ** Further properties of wavelink/node.py: teardown *)

Section TeardownFacts.

Variable Player_destroy : Player -> World -> World * result unit.

Lemma destroy_each_keeps_registry (snapshot : list (Z * Player)) (w : World) :
  keeps_registry Player_destroy ->
  client_nodes (fst (snd (destroy_each Player_destroy snapshot w))) =
    client_nodes w /\
  identifier (self_node (fst (snd (destroy_each Player_destroy snapshot w)))) =
    identifier (self_node w).
Proof.
  intros Hk. revert w. induction snapshot as [|[k p] rest IH]; intros w; simpl.
  - split; reflexivity.
  - destruct (Hk p w) as [H1 H2].
    destruct (Player_destroy p w) as [w1 [e|u]]; simpl in *.
    + split; assumption.
    + specialize (IH w1).
      destruct (destroy_each Player_destroy rest w1) as [c out].
      simpl in *. destruct IH as [-> ->]. split; assumption.
Qed.

(** The outcome of [destroy] when no player raises. *)
Lemma destroy_no_raise (w : World) :
  (forall p w0, snd (Player_destroy p w0) = inr tt) ->
  destroy Player_destroy w =
    (map fst (players (self_node w)),
     del_node
       (with_node
          (cancel_task
             (self_node (fst (snd (destroy_each Player_destroy
                                     (players (self_node w)) w)))))
          (fst (snd (destroy_each Player_destroy (players (self_node w)) w))))).
Proof.
  intros Hok.
  destruct (destroy_each_all Player_destroy (players (self_node w)) w Hok)
    as [Hcalls Hout].
  unfold destroy.
  destruct (destroy_each Player_destroy (players (self_node w)) w)
    as [calls [w1 r]].
  simpl in *. subst calls r. reflexivity.
Qed.

End TeardownFacts.

Lemma destroy_raises_key_error
    (Player_destroy : Player -> World -> World * result unit) (w : World) :
  (forall p w0, snd (Player_destroy p w0) = inr tt) ->
  keeps_registry Player_destroy ->
  client_nodes w !! identifier (self_node w) = None ->
  fst (destroy Player_destroy w) = map fst (players (self_node w)) /\
  snd (snd (destroy Player_destroy w)) = inl (KeyError (identifier (self_node w))) /\
  client_nodes (fst (snd (destroy Player_destroy w))) = client_nodes w.
Proof.
  intros Hok Hk Hreg. rewrite (destroy_no_raise Player_destroy w Hok).
  destruct (destroy_each_keeps_registry Player_destroy (players (self_node w)) w Hk)
    as [Hc Hi].
  unfold del_node. simpl. rewrite cancel_task_identifier, Hc, Hi, Hreg. simpl.
  repeat split. exact Hc.
Qed.

(** X19. When the node is not in the client's registry (and the players'
    [destroy] neither raise nor touch the registry), [destroy()] still
    destroys every player and then raises [KeyError] for the node's
    identifier; the registry is left as it was. *)
Theorem destroy_unregistered
    (Player_destroy : Player -> World -> World * result unit) (w : World) :
  (forall p w0, snd (Player_destroy p w0) = inr tt) ->
  keeps_registry Player_destroy ->
  client_nodes w !! identifier (self_node w) = None ->
  fst (destroy Player_destroy w) = map fst (players (self_node w)) /\
  snd (snd (destroy Player_destroy w)) = inl (KeyError (identifier (self_node w))) /\
  client_nodes (fst (snd (destroy Player_destroy w))) = client_nodes w.
Proof. apply destroy_raises_key_error. Qed.

Lemma destroy_unregistered_witness :
  snd (snd (destroy samples.destroy_ok
              {| self_node := self_node samples.three_players;
                 client_nodes := ∅ |})) = inl (KeyError "MAIN").
Proof.
  refine (proj1 (proj2 (destroy_unregistered samples.destroy_ok
                          {| self_node := self_node samples.three_players;
                             client_nodes := ∅ |} _ _ _))).
  - intros p w0. reflexivity.
  - intros p w0. split; reflexivity.
  - reflexivity.
Defined.

(** X20. [destroy()] is not idempotent: on a registered node whose players
    can be destroyed, the first call succeeds and removes the node from the
    registry, and a second call raises [KeyError] for the identifier. *)
Theorem destroy_twice
    (Player_destroy : Player -> World -> World * result unit) (w : World)
    (h : nat) :
  (forall p w0, snd (Player_destroy p w0) = inr tt) ->
  keeps_registry Player_destroy ->
  client_nodes w !! identifier (self_node w) = Some h ->
  snd (snd (destroy Player_destroy w)) = inr tt /\
  client_nodes (fst (snd (destroy Player_destroy w))) =
    delete (identifier (self_node w)) (client_nodes w) /\
  snd (snd (destroy Player_destroy (fst (snd (destroy Player_destroy w))))) =
    inl (KeyError (identifier (self_node w))).
Proof.
  intros Hok Hk Hreg.
  destruct (destroy_each_keeps_registry Player_destroy (players (self_node w)) w Hk)
    as [Hc Hi].
  assert (H1 : destroy Player_destroy w =
               (map fst (players (self_node w)),
                (with_nodes (delete (identifier (self_node w)) (client_nodes w))
                   (with_node
                      (cancel_task
                         (self_node (fst (snd (destroy_each Player_destroy
                                                 (players (self_node w)) w)))))
                      (fst (snd (destroy_each Player_destroy
                                   (players (self_node w)) w)))),
                 inr tt))).
  { rewrite (destroy_no_raise Player_destroy w Hok).
    rewrite (del_node_registered _ h).
    - simpl. rewrite cancel_task_identifier, Hc, Hi. reflexivity.
    - simpl. rewrite cancel_task_identifier, Hc, Hi. exact Hreg. }
  rewrite H1. simpl. repeat split.
  match goal with
  | |- snd (snd (destroy _ ?w')) = _ =>
      destruct (destroy_raises_key_error Player_destroy w' Hok Hk) as (_ & H2 & _)
  end.
  - simpl. rewrite cancel_task_identifier, Hi. apply lookup_delete_eq.
  - rewrite H2. simpl. rewrite cancel_task_identifier, Hi. reflexivity.
Qed.

Lemma destroy_twice_witness :
  snd (snd (destroy samples.destroy_ok samples.three_players)) = inr tt /\
  snd (snd (destroy samples.destroy_ok
              (fst (snd (destroy samples.destroy_ok samples.three_players))))) =
    inl (KeyError "MAIN").
Proof.
  destruct (destroy_twice samples.destroy_ok samples.three_players O)
    as (H1 & _ & H2).
  - intros p w0. reflexivity.
  - intros p w0. split; reflexivity.
  - reflexivity.
  - split; [exact H1 | exact H2].
Defined.

(** X21. On a registered node without players whose receive task accepts
    the cancellation, [destroy()] calls no player, requests the cancellation
    of the task, removes the node from the registry and returns normally,
    whatever [Player.destroy] would do. *)
Theorem destroy_without_players
    (Player_destroy : Player -> World -> World * result unit) (w : World)
    (h : nat) (ws : WebSocket) (t : Task) :
  players (self_node w) = [] ->
  client_nodes w !! identifier (self_node w) = Some h ->
  _websocket (self_node w) = Some ws ->
  _task ws = Some t ->
  cancel_raises t = None ->
  fst (destroy Player_destroy w) = [] /\
  snd (snd (destroy Player_destroy w)) = inr tt /\
  client_nodes (fst (snd (destroy Player_destroy w))) =
    delete (identifier (self_node w)) (client_nodes w) /\
  _websocket (self_node (fst (snd (destroy Player_destroy w)))) =
    Some {| is_connected := is_connected ws;
            _task := Some {| cancel_raises := None; cancel_requested := true |} |}.
Proof.
  intros Hp Hreg Hw Ht Hc. unfold destroy. rewrite Hp. simpl.
  rewrite (del_node_registered _ h).
  - simpl. rewrite cancel_task_identifier.
    rewrite (cancel_task_requested (self_node w) ws t Hw Ht Hc).
    repeat split.
  - simpl. rewrite cancel_task_identifier. exact Hreg.
Qed.

Lemma destroy_without_players_witness :
  fst (destroy samples.destroy_second_raises samples.connected_world) = [] /\
  snd (snd (destroy samples.destroy_second_raises samples.connected_world)) =
    inr tt /\
  client_nodes (fst (snd (destroy samples.destroy_second_raises
                                  samples.connected_world))) =
    delete "MAIN" ({["MAIN" := 0%nat]} : gmap string nat) /\
  _websocket (self_node (fst (snd (destroy samples.destroy_second_raises
                                           samples.connected_world)))) =
    Some {| is_connected := true;
            _task := Some {| cancel_raises := None; cancel_requested := true |} |}.
Proof.
  exact (destroy_without_players samples.destroy_second_raises
           samples.connected_world O _ _ eq_refl eq_refl eq_refl eq_refl eq_refl).
Defined.
